(** * Identifier normalisation and quoting of the Snowflake dialect

    A shallow embedding of [src/base.py]: the identifier preparer
    ([SnowflakeIdentifierPreparer]), the name translation of the dialect
    ([normalize_name], [denormalize_name], [_denormalize_quote_join]) and the
    name-space handling of [create_connect_args].

    Identifiers are strings over 7-bit ASCII, held as [string]; a character
    with the high bit set stands for a caseless character that is not a word
    character.  A Python name is either a plain [str] or a
    [quoted_name(..., quote=True)]; [None] is the [None] of [option].
    Names with a cased character beyond ASCII are the matter of the module
    [Unicode], on strings of code points.

    The dialect calls two methods of its identifier preparer that the
    toolkit defines, [_requires_quotes] and [quote].  The name translation is
    stated over any preparer (the class [IdentifierPreparer]); the preparer
    of the dialect is the instance [snowflake_preparer].

    The second part covers the rest of the connect options, the autocommit
    test of the execution context and the reflection methods; there the
    connection is a function from a statement to its result or its
    exception. *)

From Stdlib Require Import Ascii String List Bool Arith Lia.
From stdpp Require Import base option gmap strings.

Local Open Scope string_scope.
Local Open Scope bool_scope.

(** ** Characters and case *)

Module Char.

Definition code (c : ascii) : nat := nat_of_ascii c.

Definition between (lo hi : nat) (c : ascii) : bool :=
  (lo <=? code c)%nat && (code c <=? hi)%nat.

Definition is_upper (c : ascii) : bool := between 65 90 c.
Definition is_lower (c : ascii) : bool := between 97 122 c.
Definition is_digit (c : ascii) : bool := between 48 57 c.
Definition is_letter (c : ascii) : bool := is_upper c || is_lower c.

Definition lower (c : ascii) : ascii :=
  if is_upper c then ascii_of_nat (code c + 32) else c.

Definition upper (c : ascii) : ascii :=
  if is_lower c then ascii_of_nat (code c - 32) else c.

(** An upper-case letter, a digit or an underscore. *)
Definition is_upper_word (c : ascii) : bool :=
  is_upper c || is_digit c || Ascii.eqb c "_".

(** The double-quote character. *)
Definition dquote : ascii := "034"%char.

(** A character of the class [[A-Za-z0-9_$]]. *)
Definition is_legal (c : ascii) : bool :=
  is_letter c || is_digit c || Ascii.eqb c "_" || Ascii.eqb c "$".

End Char.

(** ** Python string methods *)

Module Str.

(** [str.lower] and [str.upper] on a string of ASCII characters
    ([is_ascii] below); a character beyond ASCII is left as it is, which is
    not what Python does with a cased one, and the module [Unicode] takes
    over there. *)
Fixpoint lower (s : string) : string :=
  match s with
  | EmptyString => EmptyString
  | String c r => String (Char.lower c) (lower r)
  end.

Fixpoint upper (s : string) : string :=
  match s with
  | EmptyString => EmptyString
  | String c r => String (Char.upper c) (upper r)
  end.

Fixpoint forallb (p : ascii -> bool) (s : string) : bool :=
  match s with
  | EmptyString => true
  | String c r => p c && forallb p r
  end.

Fixpoint existsb (p : ascii -> bool) (s : string) : bool :=
  match s with
  | EmptyString => false
  | String c r => p c || existsb p r
  end.

(** [sep.join(parts)]. *)
Fixpoint join (sep : string) (parts : list string) : string :=
  match parts with
  | [] => EmptyString
  | [p] => p
  | p :: rest => p ++ sep ++ join sep rest
  end.

(** [s.replace(old, new)] for a one-character [old]. *)
Fixpoint replace (old : ascii) (new : string) (s : string) : string :=
  match s with
  | EmptyString => EmptyString
  | String c r =>
      if Ascii.eqb c old then new ++ replace old new r
      else String c (replace old new r)
  end.

(** [s.split(sep)] for a one-character [sep]: the pieces between the
    separators, always at least one. *)
Fixpoint split (sep : ascii) (s : string) : list string :=
  match s with
  | EmptyString => [EmptyString]
  | String c r =>
      if Ascii.eqb c sep then EmptyString :: split sep r
      else match split sep r with
           | [] => [String c EmptyString]
           | p :: ps => String c p :: ps
           end
  end.

(** [c in s] for a one-character [c]. *)
Definition contains (c : ascii) (s : string) : bool :=
  existsb (Ascii.eqb c) s.

(** [s.count(c)]. *)
Fixpoint count (c : ascii) (s : string) : nat :=
  match s with
  | EmptyString => 0
  | String d r => (if Ascii.eqb d c then 1 else 0) + count c r
  end.

(** Every character of the string is an ASCII character (below 128). *)
Definition is_ascii (s : string) : bool :=
  forallb (fun c => (Char.code c <? 128)%nat) s.

End Str.

(** ** Names: [str] and [quoted_name] *)

(** A Python name: a plain [str], or a [quoted_name] built with
    [quote=True], the only flag value [src/base.py] ever passes. *)
Inductive pystr : Type :=
| PlainStr (s : string)
| QuotedName (s : string).

Module Name.

(** The characters of a name, whatever its flag. *)
Definition text (n : pystr) : string :=
  match n with PlainStr s | QuotedName s => s end.

(** The [quote] attribute of the name is [True]. *)
Definition quoted (n : pystr) : bool :=
  match n with PlainStr _ => false | QuotedName _ => true end.

(** [quoted_name(n, quote=True)]; a name that already carries the flag is
    returned as it is. *)
Definition quoted_name (n : pystr) : pystr := QuotedName (text n).

(** Modelled from the spec: [lower()] of the toolkit's [quoted_name] type,
    which is imported by [src/base.py] and not defined there.  A name with
    the explicit quoted marker keeps its exact case (spec, data model) and
    is stored verbatim (spec, [to_storage]), so the method returns a quoted
    name itself; on a plain [str] it is [str.lower]. *)
Definition lower (n : pystr) : pystr :=
  match n with
  | PlainStr s => PlainStr (Str.lower s)
  | QuotedName s => QuotedName s
  end.

(** Modelled from the spec: [upper()] of the toolkit's [quoted_name] type,
    in the same way: a quoted name itself, [str.upper] on a plain [str]. *)
Definition upper (n : pystr) : pystr :=
  match n with
  | PlainStr s => PlainStr (Str.upper s)
  | QuotedName s => QuotedName s
  end.

(** [a == b]: string equality, which does not look at the flag. *)
Definition eqb (a b : pystr) : bool := String.eqb (text a) (text b).

End Name.

(** ** The identifier preparer *)

(** The two methods of the toolkit's [IdentifierPreparer] that
    [src/base.py] calls on [self.identifier_preparer]. *)
Class IdentifierPreparer : Type := {
  _requires_quotes : string -> bool;
  quote : pystr -> string
}.

(** [RESERVED_WORDS], lines 21-75. *)
Definition RESERVED_WORDS : list string :=
  [ "ALL"; "ALTER"; "AND"; "ANY"; "AS"; "BETWEEN"; "BY"; "CHECK"; "COLUMN";
    "CONNECT"; "CREATE"; "CURRENT"; "DELETE"; "DISTINCT"; "DROP"; "ELSE";
    "EXISTS"; "FOR"; "FROM"; "GRANT"; "GROUP"; "HAVING"; "IN"; "INSERT";
    "INTERSECT"; "INTO"; "IS"; "LIKE"; "NOT"; "NULL"; "OF"; "ON"; "OR";
    "ORDER"; "REVOKE"; "ROW"; "ROWS"; "SELECT"; "SET"; "START"; "TABLE";
    "THEN"; "TO"; "TRIGGER"; "UNION"; "UNIQUE"; "UPDATE"; "VALUES";
    "WHENEVER"; "WHERE"; "WITH";
    "REGEXP"; "RLIKE"; "SOME";
    "MINUS"; "INCREMENT" ].

Module SnowflakeIdentifierPreparer.

(** [reserved_words = set([x.lower() for x in RESERVED_WORDS])]. *)
Definition reserved_words : gset string :=
  list_to_set (map Str.lower RESERVED_WORDS).

(** The double-quote character, passed as [initial_quote] and as
    [escape_quote] in [__init__], lines 129-135. *)
Definition initial_quote : ascii := Char.dquote.
Definition escape_quote : ascii := Char.dquote.

(** The name starts with a letter or an underscore. *)
Definition legal_initial (identifier : string) : bool :=
  match identifier with
  | EmptyString => false
  | String c _ => Char.is_letter c || Ascii.eqb c "_"
  end.

(** Modelled from the spec: [requires_quoting], the inherited
    [_requires_quotes] of the toolkit's [IdentifierPreparer], which is not
    under [src/].  The four rules of the spec, in order: a reserved word
    when lower-cased; a character outside [[A-Za-z0-9_$]] or a first
    character that is neither a letter nor an underscore; mixed case (both
    an upper-case and a lower-case letter); otherwise no quoting. *)
Definition requires_quoting (identifier : string) : bool :=
  if bool_decide (Str.lower identifier ∈ reserved_words) then true
  else if Str.existsb (fun c => negb (Char.is_legal c)) identifier
          || negb (legal_initial identifier) then true
  else if Str.existsb Char.is_upper identifier
          && Str.existsb Char.is_lower identifier then true
  else false.

(** Modelled from the spec: the wrapping step of [quote_if_needed], the
    inherited [quote_identifier] of the toolkit's [IdentifierPreparer]: the
    name between quote characters, each embedded quote character doubled. *)
Definition quote_identifier (value : string) : string :=
  String initial_quote
    (Str.replace escape_quote (String escape_quote (String escape_quote EmptyString))
                 value
     ++ String initial_quote EmptyString).

(** Modelled from the spec: [quote_if_needed], the inherited [quote] of
    the toolkit's [IdentifierPreparer], which is not under [src/]: the name
    is wrapped when it carries the explicit quoted flag or when
    [requires_quoting] holds of it, and is returned unchanged otherwise. *)
Definition quote_if_needed (ident : pystr) : string :=
  if Name.quoted ident || requires_quoting (Name.text ident)
  then quote_identifier (Name.text ident)
  else Name.text ident.

End SnowflakeIdentifierPreparer.

(** The preparer of the dialect ([preparer = SnowflakeIdentifierPreparer]). *)
#[export] Instance snowflake_preparer : IdentifierPreparer := {|
  _requires_quotes := SnowflakeIdentifierPreparer.requires_quoting;
  quote := SnowflakeIdentifierPreparer.quote_if_needed
|}.

(** ** The dialect *)

Section SnowflakeDialect.

Context {identifier_preparer : IdentifierPreparer}.

(** [SnowflakeIdentifierPreparer._quote_free_identifiers], lines 137-141:
    every id that is not [None], quoted by the preparer. *)
Definition _quote_free_identifiers (ids : list (option pystr)) : list string :=
  map quote (omap id ids).

(** [SnowflakeDialect.normalize_name], lines 317-326. *)
Definition normalize_name (name : option pystr) : option pystr :=
  match name with
  | None => None
  | Some name =>
      if Name.eqb (Name.upper name) name
         && negb (_requires_quotes (Name.text (Name.lower name)))
      then Some (Name.lower name)
      else if Name.eqb (Name.lower name) name
      then Some (Name.quoted_name name)
      else Some name
  end.

(** [SnowflakeDialect.denormalize_name], lines 328-334. *)
Definition denormalize_name (name : option pystr) : option pystr :=
  match name with
  | None => None
  | Some name =>
      if Name.eqb (Name.lower name) name
         && negb (_requires_quotes (Name.text (Name.lower name)))
      then Some (Name.upper name)
      else Some name
  end.

(** [SnowflakeDialect._denormalize_quote_join], lines 336-338. *)
Definition _denormalize_quote_join (idents : list (option pystr)) : string :=
  Str.join "." (_quote_free_identifiers idents).

End SnowflakeDialect.

(** ** Connection arguments *)

(** The values held by the connect options: strings, the integer port of a
    URL, and the boolean [autocommit]. *)
Inductive pyval : Type :=
| PStr (s : string)
| PInt (n : Z)
| PBool (b : bool).

(** The exceptions [create_connect_args] can end with. *)
Inductive exn : Type :=
| ArgumentError (msg : string)
| KeyError (key : string)
| AttributeError
| TypeError.

Module ConnectArgs.

Definition result (A : Type) : Type := exn + A.

Definition bind {A B} (r : result A) (k : A -> result B) : result B :=
  match r with
  | inl e => inl e
  | inr a => k a
  end.

Notation "'do' x <- r ; k" := (bind r (fun x => k))
  (at level 10, x name, r at level 100, k at level 200).

(** Lines 270-281: a [database] option of the form [db/schema] is split
    into the [database] and [schema] options; more than two parts are
    refused. *)
Definition name_spaces (opts : gmap string pyval) : result (gmap string pyval) :=
  match opts !! "database" with
  | None => inr opts
  | Some (PStr database) =>
      match Str.split "/" database with
      | [_] => inr opts
      | [db; schema] =>
          inr (<["schema" := PStr schema]> (<["database" := PStr db]> opts))
      | _ =>
          inl (ArgumentError
                 ("Invalid name space is specified: " ++ database))
      end
  | Some _ => inl AttributeError
  end.

(** Lines 282-285: a host without a dot is an account name. *)
Definition account_host (opts : gmap string pyval) : result (gmap string pyval) :=
  match opts !! "host" with
  | None => inl (KeyError "host")
  | Some (PStr host) =>
      if negb (Str.contains "." host)
      then inr (<["port" := PStr "443"]>
               (<["host" := PStr (host ++ ".snowflakecomputing.com")]>
               (<["account" := PStr host]> opts)))
      else inr opts
  | Some _ => inl TypeError
  end.

(** [SnowflakeDialect.create_connect_args], lines 268-288.  [opts] is the
    dictionary [url.translate_connect_args(username='user')] returns and
    [query] is [url.query]. *)
Definition create_connect_args (opts : gmap string pyval)
    (query : gmap string pyval) : result (list pyval * gmap string pyval) :=
  do opts <- name_spaces opts;
  do opts <- account_host opts;
  let opts := <["autocommit" := PBool false]> opts in
  inr ([], query ∪ opts).

End ConnectArgs.

(** ** Statements that autocommit *)

Module Autocommit.

(** An ASCII character the pattern [\s] matches: tab to carriage return,
    the four information separators, and the space.  (With [re.UNICODE]
    the pattern matches white space beyond ASCII too; the matcher is that
    of the pattern on ASCII statements.) *)
Definition is_space (c : ascii) : bool :=
  Char.between 9 13 c || Char.between 28 31 c || Ascii.eqb c " ".

(** The keywords of [AUTOCOMMIT_REGEXP], lines 121-123, in the order of
    the alternation. *)
Definition keywords : list string := ["UPDATE"; "INSERT"; "DELETE"; "MERGE"].

(** [kw] matches at the start of [s] without regard to the case of
    ASCII letters (flag [re.I] on an ASCII statement); the result is what
    is left of [s] behind it. *)
Fixpoint match_keyword (kw s : string) : option string :=
  match kw, s with
  | EmptyString, _ => Some s
  | String k kw', String c s' =>
      if Ascii.eqb (Char.lower k) (Char.lower c) then match_keyword kw' s'
      else None
  | String _ _, EmptyString => None
  end.

(** The alternation: the first keyword that matches. *)
Fixpoint match_alternation (kws : list string) (s : string) : option string :=
  match kws with
  | [] => None
  | kw :: rest =>
      match match_keyword kw s with
      | Some tail => Some tail
      | None => match_alternation rest s
      end
  end.

(** [AUTOCOMMIT_REGEXP.match(statement)]: white space, as much as there
    is, then one of the keywords.  [Some n] is a match object that ends at
    position [n]; [None] is no match. *)
Fixpoint AUTOCOMMIT_REGEXP_match (statement : string) : option nat :=
  match statement with
  | EmptyString => None
  | String c rest =>
      if is_space c then S <$> AUTOCOMMIT_REGEXP_match rest
      else (fun tail => String.length statement - String.length tail)
             <$> match_alternation keywords statement
  end.

(** [SnowflakeExecutionContext.should_autocommit_text], lines 157-158. *)
Definition should_autocommit_text (statement : string) : option nat :=
  AUTOCOMMIT_REGEXP_match statement.

(** The values [should_autocommit] handles: [None], a boolean, a string,
    the symbol [expression.PARSE_AUTOCOMMIT], a match object and any other
    object (a compiled statement). *)
Inductive pyobj : Type :=
| ONone
| OBool (b : bool)
| OStr (s : string)
| PARSE_AUTOCOMMIT
| OMatch (pos : nat)
| OObject.

(** The truth value of an object. *)
Definition truthy (o : pyobj) : bool :=
  match o with
  | ONone => false
  | OBool b => b
  | OStr s => negb (String.eqb s EmptyString)
  | PARSE_AUTOCOMMIT | OMatch _ | OObject => true
  end.

Definition py_and (a b : pyobj) : pyobj := if truthy a then b else a.
Definition py_or (a b : pyobj) : pyobj := if truthy a then a else b.
Definition py_not (a : pyobj) : pyobj := OBool (negb (truthy a)).

(** The attributes of the execution context that [should_autocommit]
    reads; [autocommit_option] is the entry of [execution_options], absent
    or present. *)
Record ExecutionContext : Type := {
  autocommit_option : option pyobj;
  compiled : pyobj;
  statement : pyobj;
  unicode_statement : string;
  isddl : bool
}.

(** [SnowflakeExecutionContext.should_autocommit], lines 160-171. *)
Definition should_autocommit (self : ExecutionContext) : pyobj :=
  let default :=
    py_or (py_and (py_and (py_not (compiled self)) (statement self))
                  PARSE_AUTOCOMMIT)
          (OBool false) in
  let autocommit :=
    match autocommit_option self with
    | Some v => v
    | None => default
    end in
  match autocommit with
  | PARSE_AUTOCOMMIT =>
      match should_autocommit_text (unicode_statement self) with
      | Some pos => OMatch pos
      | None => ONone
      end
  | _ => py_and autocommit (OBool (negb (isddl self)))
  end.

End Autocommit.

(** ** Reflection *)

(** A value of a result row: [None] for NULL, or a value. *)
Definition cell : Type := option pyval.

(** An entry of [cursor.description]: the column name [col[0]] and the
    other items of the entry. *)
Definition column : Type := string * list cell.

(** The result of [connection.execute]: the description of the cursor and
    the rows, in the order the cursor yields them. *)
Record ResultProxy : Type := {
  description : list column;
  rows : list (list cell)
}.

(** The class of [e.orig] in a [DBAPIError]. *)
Inductive orig_class : Type :=
| ProgrammingError
| OtherOrigError.

(** The exceptions of the reflection methods: those of [exn], the index
    error of a row, the [DBAPIError] of the toolkit (and its subclasses)
    with the class of the driver's error it wraps, and any other exception
    of the connection. *)
Inductive raised : Type :=
| Py (e : exn)
| IndexError
| DBAPIError (orig : orig_class)
| OtherError.

Module Reflection.

Definition result (A : Type) : Type := raised + A.

Definition bind {A B} (r : result A) (k : A -> result B) : result B :=
  match r with
  | inl e => inl e
  | inr a => k a
  end.

Notation "'do' x <- r ; k" := (bind r (fun x => k))
  (at level 10, x name, r at level 100, k at level 200).

(** [connection.execute(statement)]: a result, or an exception. *)
Definition Connection : Type := string -> result ResultProxy.

(** [result.fetchone()] on a fresh result. *)
Definition fetchone (res : ResultProxy) : option (list cell) :=
  head (rows res).

(** [row[i]]. *)
Definition getitem (row : list cell) (i : nat) : result cell :=
  match row !! i with
  | Some c => inr c
  | None => inl IndexError
  end.

(** [n2i[key]]. *)
Definition getidx (n2i : gmap string nat) (key : string) : result nat :=
  match n2i !! key with
  | Some i => inr i
  | None => inl (Py (KeyError key))
  end.

(** A cell as the argument of a string method: NULL is [None], a string is
    a plain [str], and a number or a boolean has no such method. *)
Definition cell_name (c : cell) : result (option pystr) :=
  match c with
  | None => inr None
  | Some (PStr s) => inr (Some (PlainStr s))
  | Some _ => inl (Py AttributeError)
  end.

(** The name, when there is one, is made of ASCII characters. *)
Definition ascii_name (name : option pystr) : bool :=
  match name with
  | None => true
  | Some n => Str.is_ascii (Name.text n)
  end.

(** [c == s] for a string [s]. *)
Definition cell_is (c : cell) (s : string) : bool :=
  match c with
  | Some (PStr t) => String.eqb t s
  | _ => false
  end.

(** The truth value of a name: [None] and the empty string are false. *)
Definition truthy (name : option pystr) : bool :=
  match name with
  | None => false
  | Some n => negb (String.eqb (Name.text n) EmptyString)
  end.

(** [a or b]. *)
Definition py_or (a b : option pystr) : option pystr :=
  if truthy a then a else b.

(** Each element through [f], in order, up to the first exception. *)
Fixpoint mapM {A B} (f : A -> result B) (l : list A) : result (list B) :=
  match l with
  | [] => inr []
  | a :: rest =>
      do b <- f a;
      do bs <- mapM f rest;
      inr (b :: bs)
  end.

(** [SnowflakeDialect._map_name_to_idx], lines 340-345: the loop, from
    index [idx] on. *)
Fixpoint map_name_to_idx_from (idx : nat) (description : list column)
    (name_to_idx : gmap string nat) : gmap string nat :=
  match description with
  | [] => name_to_idx
  | col :: rest =>
      map_name_to_idx_from (S idx) rest (<[col.1 := idx]> name_to_idx)
  end.

Definition _map_name_to_idx (result : ResultProxy) : gmap string nat :=
  map_name_to_idx_from 0 (description result) ∅.

Section Dialect.

Context {identifier_preparer : IdentifierPreparer}.

(** [default_schema_name], an attribute of the dialect. *)
Context (default_schema_name : option pystr).

(** [normalize_name] on a cell. *)
Definition normalize_cell (c : cell) : result (option pystr) :=
  do name <- cell_name c;
  inr (normalize_name name).

(** [SnowflakeDialect._has_object], lines 302-315. *)
Definition _has_object (connection : Connection) (object_type : string)
    (object_name schema : option pystr) : result bool :=
  let full_name := _denormalize_quote_join [schema; object_name] in
  match connection ("DESC " ++ object_type ++ " " ++ full_name) with
  | inr results =>
      match fetchone results with
      | Some _ => inr true
      | None => inr false
      end
  | inl (DBAPIError ProgrammingError) => inr false
  | inl e => inl e
  end.

(** [SnowflakeDialect.has_table], lines 290-294. *)
Definition has_table (connection : Connection)
    (table_name schema : option pystr) : result bool :=
  _has_object connection "TABLE" table_name schema.

(** [SnowflakeDialect.has_sequence], lines 296-300. *)
Definition has_sequence (connection : Connection)
    (sequence_name schema : option pystr) : result bool :=
  _has_object connection "SEQUENCE" sequence_name schema.

(** The schema of [get_primary_keys]: the one given, or the default one,
    or the normalised answer to [SELECT CURRENT_SCHEMA()], lines 357-360. *)
Definition current_schema (connection : Connection)
    (schema : option pystr) : result (option pystr) :=
  let schema := py_or schema default_schema_name in
  if negb (truthy schema) then
    do res <- connection "SELECT CURRENT_SCHEMA()";
    match fetchone res with
    | None => inl (Py TypeError)
    | Some row =>
        do c <- getitem row 0;
        normalize_cell c
    end
  else inr schema.

(** The loop of [get_primary_keys], lines 371-376. *)
Fixpoint constrained_columns (n2i : gmap string nat) (rows : list (list cell))
    : result (list (option pystr)) :=
  match rows with
  | [] => inr []
  | row :: rest =>
      do i <- getidx n2i "name";
      do column_name <- getitem row i;
      do j <- getidx n2i "primary key";
      do flag <- getitem row j;
      if cell_is flag "Y" then
        do name <- normalize_cell column_name;
        do names <- constrained_columns n2i rest;
        inr (name :: names)
      else constrained_columns n2i rest
  end.

(** [SnowflakeDialect.get_primary_keys], lines 355-378: the value of
    [constrained_columns] in the dictionary returned, whose [name] is
    [None]. *)
Definition get_primary_keys (connection : Connection)
    (table_name schema : option pystr) : result (list (option pystr)) :=
  do schema <- current_schema connection schema;
  let full_table_name := _denormalize_quote_join [schema; table_name] in
  do result <- connection ("DESCRIBE TABLE " ++ full_table_name);
  let n2i := _map_name_to_idx result in
  constrained_columns n2i (rows result).

(** The statement of [get_table_names], [get_view_names] and
    [get_temp_table_names]: SHOW TABLES or SHOW VIEWS, in the schema given
    or the default one when there is one. *)
Definition show_objects (connection : Connection) (kind : string)
    (schema : option pystr) : result ResultProxy :=
  let schema := py_or schema default_schema_name in
  if truthy schema
  then connection ("SHOW " ++ kind ++ " IN " ++ _denormalize_quote_join [schema])
  else connection ("SHOW " ++ kind).

(** [SnowflakeDialect.get_table_names], lines 486-499. *)
Definition get_table_names (connection : Connection)
    (schema : option pystr) : result (list (option pystr)) :=
  do cursor <- show_objects connection "TABLES" schema;
  mapM (fun row => do c <- getitem row 1; normalize_cell c) (rows cursor).

(** [SnowflakeDialect.get_view_names], lines 501-514. *)
Definition get_view_names (connection : Connection)
    (schema : option pystr) : result (list (option pystr)) :=
  do cursor <- show_objects connection "VIEWS" schema;
  mapM (fun row => do c <- getitem row 1; normalize_cell c) (rows cursor).

(** The loop of [get_temp_table_names], lines 550-552. *)
Fixpoint temporary_names (n2i : gmap string nat) (rows : list (list cell))
    : result (list (option pystr)) :=
  match rows with
  | [] => inr []
  | row :: rest =>
      do i <- getidx n2i "kind";
      do kind <- getitem row i;
      if cell_is kind "TEMPORARY" then
        do j <- getidx n2i "name";
        do c <- getitem row j;
        do name <- normalize_cell c;
        do names <- temporary_names n2i rest;
        inr (name :: names)
      else temporary_names n2i rest
  end.

(** [SnowflakeDialect.get_temp_table_names], lines 540-554. *)
Definition get_temp_table_names (connection : Connection)
    (schema : option pystr) : result (list (option pystr)) :=
  do cursor <- show_objects connection "TABLES" schema;
  temporary_names (_map_name_to_idx cursor) (rows cursor).

(** [SnowflakeDialect.get_view_definition], lines 516-538.  A row is
    true when it is not empty; what the [try] block raises is dropped, and
    [None] returned. *)
Definition get_view_definition (connection : Connection)
    (view_name schema : option pystr) : result cell :=
  let schema := py_or schema default_schema_name in
  do cursor <-
    (if truthy schema
     then connection ("SHOW VIEWS LIKE '" ++ _denormalize_quote_join [view_name]
                        ++ "' IN " ++ _denormalize_quote_join [schema])
     else connection ("SHOW VIEWS LIKE '" ++ _denormalize_quote_join [view_name]
                        ++ "'"));
  let n2i := _map_name_to_idx cursor in
  match fetchone cursor with
  | Some ret =>
      if negb (bool_decide (ret = []))
      then match (do i <- getidx n2i "text"; getitem ret i) with
           | inr text => inr text
           | inl _ => inr None
           end
      else inr None
  | None => inr None
  end.

(** [a == b] on two names that may be [None]. *)
Definition name_eqb (a b : option pystr) : bool :=
  match a, b with
  | None, None => true
  | Some x, Some y => Name.eqb x y
  | _, _ => false
  end.

(** [a == b] on two cells as dictionary keys: strings by their
    characters, numbers by their value, a boolean as the number 0 or 1. *)
Definition key_eqb (a b : cell) : bool :=
  let number (v : pyval) : option Z :=
    match v with
    | PInt n => Some n
    | PBool b => Some (if b then 1%Z else 0%Z)
    | PStr _ => None
    end in
  match a, b with
  | None, None => true
  | Some (PStr s), Some (PStr t) => String.eqb s t
  | Some x, Some y =>
      match number x, number y with
      | Some n, Some m => Z.eqb n m
      | _, _ => false
      end
  | _, _ => false
  end.

(** An entry of the list [get_foreign_keys] returns: the value of [name]
    and the four values kept in [foreign_key_map] under that name. *)
Record foreign_key : Type := {
  fk_name : cell;
  fk_constrained_columns : list (option pystr);
  fk_referred_schema : option pystr;
  fk_referred_table : option pystr;
  fk_referred_columns : list (option pystr)
}.

(** Lines 410-421: a name not yet in [foreign_key_map] gets a new entry,
    behind the others; a name already there gets its two column lists
    extended.  The map is held as the list of its entries in the order of
    their insertion. *)
Fixpoint add_foreign_key (name : cell)
    (constrained_column referred_schema referred_table referred_column
       : option pystr)
    (foreign_key_map : list foreign_key) : list foreign_key :=
  match foreign_key_map with
  | [] =>
      [ {| fk_name := name;
           fk_constrained_columns := [constrained_column];
           fk_referred_schema := referred_schema;
           fk_referred_table := referred_table;
           fk_referred_columns := [referred_column] |} ]
  | fk :: rest =>
      if key_eqb name (fk_name fk)
      then {| fk_name := fk_name fk;
              fk_constrained_columns :=
                fk_constrained_columns fk ++ [constrained_column];
              fk_referred_schema := fk_referred_schema fk;
              fk_referred_table := fk_referred_table fk;
              fk_referred_columns :=
                fk_referred_columns fk ++ [referred_column] |} :: rest
      else fk :: add_foreign_key name constrained_column referred_schema
                   referred_table referred_column rest
  end.

(** The loop of [get_foreign_keys], lines 398-421. *)
Fixpoint foreign_key_rows (n2i : gmap string nat) (table_name : option pystr)
    (rows : list (list cell)) (foreign_key_map : list foreign_key)
    : result (list foreign_key) :=
  match rows with
  | [] => inr foreign_key_map
  | row :: rest =>
      do i <- getidx n2i "fk_name";
      do name <- getitem row i;
      do i <- getidx n2i "fk_table_name";
      do c <- getitem row i;
      do constrained_table <- normalize_cell c;
      if name_eqb constrained_table table_name then
        do i <- getidx n2i "fk_column_name";
        do c <- getitem row i;
        do constrained_column <- normalize_cell c;
        do i <- getidx n2i "pk_schema_name";
        do c <- getitem row i;
        do referred_schema <- normalize_cell c;
        do i <- getidx n2i "pk_table_name";
        do c <- getitem row i;
        do referred_table <- normalize_cell c;
        do i <- getidx n2i "pk_column_name";
        do c <- getitem row i;
        do referred_column <- normalize_cell c;
        foreign_key_rows n2i table_name rest
          (add_foreign_key name constrained_column referred_schema
             referred_table referred_column foreign_key_map)
      else foreign_key_rows n2i table_name rest foreign_key_map
  end.

(** [SnowflakeDialect.get_foreign_keys], lines 380-429.  The list
    returned follows the iteration of [foreign_key_map], taken here in the
    order of insertion. *)
Definition get_foreign_keys (connection : Connection)
    (table_name schema : option pystr) : result (list foreign_key) :=
  let schema := py_or schema default_schema_name in
  do res <- connection "SELECT CURRENT_DATABASE(), CURRENT_SCHEMA()";
  match fetchone res with
  | None => inl (Py TypeError)
  | Some row =>
      do database <- getitem row 0;
      do second <-
        (if truthy schema then inr schema
         else do c <- getitem row 1; cell_name c);
      do database <- cell_name database;
      let full_schema_name := _denormalize_quote_join [database; second] in
      do result <- connection ("SHOW IMPORTED KEYS IN SCHEMA "
                                 ++ full_schema_name);
      let n2i := _map_name_to_idx result in
      foreign_key_rows n2i table_name (rows result) []
  end.

End Dialect.

(** What [get_foreign_keys] keeps true of [foreign_key_map]: in every
    entry the two column lists have the same length and are not empty, and
    no two entries have the same name. *)
Definition foreign_keys_ok (fks : list foreign_key) : Prop :=
  Forall (fun fk =>
            length (fk_constrained_columns fk) = length (fk_referred_columns fk)
            /\ 0 < length (fk_constrained_columns fk)) fks
  /\ forall i j fk1 fk2,
       fks !! i = Some fk1 -> fks !! j = Some fk2 ->
       key_eqb (fk_name fk1) (fk_name fk2) = true -> i = j.

End Reflection.

(** ** A sample engine *)

(** A connection that answers the statements of the reflection methods
    for one schema with three tables, used to run the methods. *)
Module Sample.

Import Reflection.

Definition text (s : string) : cell := Some (PStr s).

Definition col (name : string) : column := (name, []).

(** SHOW TABLES: a table created without quotes, and two temporary
    tables created with quotes. *)
Definition show_tables : ResultProxy := {|
  description := [col "created_on"; col "name"; col "kind"];
  rows := [ [text "2016-01-01"; text "ORDERS"; text "TABLE"];
            [text "2016-01-02"; text "tmp_load"; text "TEMPORARY"];
            [text "2016-01-03"; text "Staging"; text "TEMPORARY"] ]
|}.

(** DESCRIBE TABLE: a key of two columns. *)
Definition describe_orders : ResultProxy := {|
  description := [col "name"; col "type"; col "primary key"];
  rows := [ [text "ID"; text "NUMBER(38,0)"; text "Y"];
            [text "LINE"; text "NUMBER(38,0)"; text "Y"];
            [text "NOTE"; text "VARCHAR(100)"; text "N"] ]
|}.

(** SHOW IMPORTED KEYS: a foreign key of two columns, a foreign key of
    one column, and a key of another table. *)
Definition imported_keys : ResultProxy := {|
  description :=
    [col "pk_schema_name"; col "pk_table_name"; col "pk_column_name";
     col "fk_table_name"; col "fk_column_name"; col "fk_name"];
  rows :=
    [ [text "PUBLIC"; text "ITEMS"; text "ID"; text "ORDERS"; text "ITEM_ID";
       text "FK_ITEM"];
      [text "PUBLIC"; text "ITEMS"; text "REV"; text "ORDERS"; text "ITEM_REV";
       text "FK_ITEM"];
      [text "PUBLIC"; text "USERS"; text "ID"; text "ORDERS"; text "USER_ID";
       text "FK_USER"];
      [text "PUBLIC"; text "USERS"; text "ID"; text "NOTES"; text "USER_ID";
       text "FK_NOTE_USER"] ]
|}.

Definition answers : list (string * ResultProxy) :=
  [ ("SHOW TABLES", show_tables);
    ("SELECT CURRENT_SCHEMA()",
     {| description := [col "CURRENT_SCHEMA()"]; rows := [[text "PUBLIC"]] |});
    ("SELECT CURRENT_DATABASE(), CURRENT_SCHEMA()",
     {| description := [col "CURRENT_DATABASE()"; col "CURRENT_SCHEMA()"];
        rows := [[text "SALES"; text "PUBLIC"]] |});
    ("DESCRIBE TABLE public.orders", describe_orders);
    ("SHOW IMPORTED KEYS IN SCHEMA SALES.PUBLIC", imported_keys) ].

(** Any other statement is a programming error of the driver. *)
Definition connection : Connection :=
  fun statement =>
    match find (fun a => String.eqb a.1 statement) answers with
    | Some a => inr a.2
    | None => inl (DBAPIError ProgrammingError)
    end.

End Sample.

(** ** Names beyond ASCII *)

(** [normalize_name] and [denormalize_name] on strings of code points,
    with Python's case mapping of the ASCII characters and of KELVIN SIGN
    (U+212A), a capital letter whose small letter is the ASCII [k].  A
    method on a string with any other code point is not modelled: it
    gives [None]. *)
Module Unicode.

(** A string, as the list of its code points. *)
Definition ustring : Type := list N.

Definition KELVIN_SIGN : N := 8490%N.

(** [chr(c).lower()]: the ASCII mapping below 128, [k] for KELVIN SIGN. *)
Definition lower_cp (c : N) : option ustring :=
  if (c <? 128)%N then Some [N_of_ascii (Char.lower (ascii_of_N c))]
  else if (c =? KELVIN_SIGN)%N then Some [107%N]
  else None.

(** [chr(c).upper()]: the ASCII mapping below 128; KELVIN SIGN is a
    capital letter and stays. *)
Definition upper_cp (c : N) : option ustring :=
  if (c <? 128)%N then Some [N_of_ascii (Char.upper (ascii_of_N c))]
  else if (c =? KELVIN_SIGN)%N then Some [KELVIN_SIGN]
  else None.

(** [str.lower] and [str.upper]. *)
Fixpoint lower (s : ustring) : option ustring :=
  match s with
  | [] => Some []
  | c :: r =>
      match lower_cp c, lower r with
      | Some a, Some b => Some (a ++ b)%list
      | _, _ => None
      end
  end.

Fixpoint upper (s : ustring) : option ustring :=
  match s with
  | [] => Some []
  | c :: r =>
      match upper_cp c, upper r with
      | Some a, Some b => Some (a ++ b)%list
      | _, _ => None
      end
  end.

(** A plain [str], or a [quoted_name] built with [quote=True]. *)
Inductive uname : Type :=
| UPlain (s : ustring)
| UQuoted (s : ustring).

Definition text (n : uname) : ustring :=
  match n with UPlain s | UQuoted s => s end.

(** [lower()] and [upper()] of a name: a quoted name itself, the string
    method on a plain [str], as in [Name]. *)
Definition name_lower (n : uname) : option uname :=
  match n with
  | UPlain s => UPlain <$> lower s
  | UQuoted s => Some (UQuoted s)
  end.

Definition name_upper (n : uname) : option uname :=
  match n with
  | UPlain s => UPlain <$> upper s
  | UQuoted s => Some (UQuoted s)
  end.

(** [a == b], which does not look at the flag. *)
Definition eqb (a b : uname) : bool := bool_decide (text a = text b).

(** The string as a string of ASCII characters, when it is one. *)
Fixpoint to_ascii (s : ustring) : option string :=
  match s with
  | [] => Some EmptyString
  | c :: r =>
      if (c <? 128)%N then String (ascii_of_N c) <$> to_ascii r else None
  end.

(** Modelled from the spec: [requires_quoting] on a string of code
    points.  A code point beyond ASCII is a character outside
    [[A-Za-z0-9_$]], so such a name requires quoting by rule 2 at the
    latest; an ASCII name is judged as in [SnowflakeIdentifierPreparer]. *)
Definition requires_quoting (s : ustring) : bool :=
  match to_ascii s with
  | Some a => SnowflakeIdentifierPreparer.requires_quoting a
  | None => true
  end.

(** [SnowflakeDialect.normalize_name], lines 317-326. *)
Definition normalize_name (name : option uname) : option (option uname) :=
  match name with
  | None => Some None
  | Some name =>
      up ← name_upper name;
      lo ← name_lower name;
      if eqb up name && negb (requires_quoting (text lo))
      then Some (Some lo)
      else if eqb lo name
      then Some (Some (UQuoted (text name)))
      else Some (Some name)
  end.

(** [SnowflakeDialect.denormalize_name], lines 328-334. *)
Definition denormalize_name (name : option uname) : option (option uname) :=
  match name with
  | None => Some None
  | Some name =>
      lo ← name_lower name;
      up ← name_upper name;
      if eqb lo name && negb (requires_quoting (text lo))
      then Some (Some up)
      else Some (Some name)
  end.

(** A string of ASCII characters as a string of code points. *)
Fixpoint of_string (s : string) : ustring :=
  match s with
  | EmptyString => []
  | String c r => N_of_ascii c :: of_string r
  end.

Definition of_name (n : pystr) : uname :=
  match n with
  | PlainStr s => UPlain (of_string s)
  | QuotedName s => UQuoted (of_string s)
  end.

End Unicode.

(** * Properties *)

(** ** Case conversion *)

Module CharFacts.

Ltac by_cases c :=
  destruct c as [[] [] [] [] [] [] [] []]; vm_compute;
  try reflexivity; try discriminate; auto.

Lemma char_lower_lower c : Char.lower (Char.lower c) = Char.lower c.
Proof. by_cases c. Qed.

Lemma char_upper_upper c : Char.upper (Char.upper c) = Char.upper c.
Proof. by_cases c. Qed.

Lemma char_upper_lower c : Char.upper (Char.lower c) = Char.upper c.
Proof. by_cases c. Qed.

Lemma char_is_legal_lower c : Char.is_legal (Char.lower c) = Char.is_legal c.
Proof. by_cases c. Qed.

Lemma char_is_letter_lower c : Char.is_letter (Char.lower c) = Char.is_letter c.
Proof. by_cases c. Qed.

Lemma char_underscore_lower c :
  Ascii.eqb (Char.lower c) "_" = Ascii.eqb c "_".
Proof. by_cases c. Qed.

Lemma char_lower_fix c : Char.lower c = c <-> Char.is_upper c = false.
Proof. split; by_cases c. Qed.

Lemma char_upper_fix c : Char.upper c = c <-> Char.is_lower c = false.
Proof. split; by_cases c. Qed.

End CharFacts.

Module StrFacts.

Lemma str_lower_lower s : Str.lower (Str.lower s) = Str.lower s.
Proof.
  induction s as [|c r IH]; simpl; [reflexivity|].
  now rewrite CharFacts.char_lower_lower, IH.
Qed.

Lemma str_upper_upper s : Str.upper (Str.upper s) = Str.upper s.
Proof.
  induction s as [|c r IH]; simpl; [reflexivity|].
  now rewrite CharFacts.char_upper_upper, IH.
Qed.

Lemma str_upper_lower s : Str.upper (Str.lower s) = Str.upper s.
Proof.
  induction s as [|c r IH]; simpl; [reflexivity|].
  now rewrite CharFacts.char_upper_lower, IH.
Qed.

(** [s.lower() == s] says that [s] has no upper-case letter. *)
Lemma str_lower_fix s : Str.lower s = s <-> Str.existsb Char.is_upper s = false.
Proof.
  induction s as [|c r IH]; simpl; [tauto|].
  rewrite orb_false_iff, <- IH, <- CharFacts.char_lower_fix.
  split; [intros [= Hc Hr]; now split | intros [-> ->]; reflexivity].
Qed.

(** [s.upper() == s] says that [s] has no lower-case letter. *)
Lemma str_upper_fix s : Str.upper s = s <-> Str.existsb Char.is_lower s = false.
Proof.
  induction s as [|c r IH]; simpl; [tauto|].
  rewrite orb_false_iff, <- IH, <- CharFacts.char_upper_fix.
  split; [intros [= Hc Hr]; now split | intros [-> ->]; reflexivity].
Qed.

End StrFacts.

(** ** Name translation, for any identifier preparer *)

Section NameTranslation.

Context {identifier_preparer : IdentifierPreparer}.

Lemma name_eqb_eq a b : Name.eqb a b = true <-> Name.text a = Name.text b.
Proof. unfold Name.eqb. apply String.eqb_eq. Qed.

Lemma name_eqb_refl a : Name.eqb a a = true.
Proof. apply name_eqb_eq. reflexivity. Qed.

(** A name that carries the quoted flag goes through [normalize_name]
    as it is. *)
Lemma normalize_name_quoted s :
  normalize_name (Some (QuotedName s)) = Some (QuotedName s).
Proof.
  unfold normalize_name. cbn [Name.upper Name.lower Name.text].
  rewrite name_eqb_refl. cbn [andb].
  destruct (_requires_quotes s); reflexivity.
Qed.

(** And through [denormalize_name]. *)
Lemma denormalize_name_quoted s :
  denormalize_name (Some (QuotedName s)) = Some (QuotedName s).
Proof.
  unfold denormalize_name. cbn [Name.upper Name.lower Name.text].
  destruct (_ && _); reflexivity.
Qed.

(** The upper-casing branch of [denormalize_name] on a plain string. *)
Lemma denormalize_name_fold s :
  Str.lower s = s -> _requires_quotes s = false ->
  denormalize_name (Some (PlainStr s)) = Some (PlainStr (Str.upper s)).
Proof.
  intros Hl Hq. unfold denormalize_name, Name.eqb.
  cbn [Name.upper Name.lower Name.text].
  rewrite Hl, String.eqb_refl, Hq. reflexivity.
Qed.

(** The other branch. *)
Lemma denormalize_name_keep s :
  ~ (Str.lower s = s /\ _requires_quotes s = false) ->
  denormalize_name (Some (PlainStr s)) = Some (PlainStr s).
Proof.
  intros Hn. unfold denormalize_name, Name.eqb.
  cbn [Name.upper Name.lower Name.text].
  destruct (String.eqb (Str.lower s) s) eqn:He; [|reflexivity].
  apply String.eqb_eq in He. rewrite He.
  destruct (_requires_quotes s) eqn:Hq; [reflexivity|].
  exfalso. apply Hn. split; [exact He | reflexivity].
Qed.

(** The lower-casing branch of [normalize_name]. *)
Lemma normalize_name_fold s :
  Str.upper s = s -> _requires_quotes (Str.lower s) = false ->
  normalize_name (Some (PlainStr s)) = Some (PlainStr (Str.lower s)).
Proof.
  intros Hu Hq. unfold normalize_name, Name.eqb.
  cbn [Name.upper Name.lower Name.text].
  rewrite Hu, String.eqb_refl, Hq. reflexivity.
Qed.

(** The two other branches of [normalize_name]. *)
Lemma normalize_name_lowercase s :
  ~ (Str.upper s = s /\ _requires_quotes (Str.lower s) = false) ->
  Str.lower s = s ->
  normalize_name (Some (PlainStr s)) = Some (QuotedName s).
Proof.
  intros Hn Hl. unfold normalize_name, Name.eqb.
  cbn [Name.upper Name.lower Name.text Name.quoted_name].
  destruct (String.eqb (Str.upper s) s && _) eqn:Hc.
  - exfalso. apply Hn. apply andb_true_iff in Hc as [He Hq].
    apply String.eqb_eq in He. apply negb_true_iff in Hq. now split.
  - now rewrite Hl, String.eqb_refl.
Qed.

Lemma normalize_name_other s :
  ~ (Str.upper s = s /\ _requires_quotes (Str.lower s) = false) ->
  Str.lower s <> s ->
  normalize_name (Some (PlainStr s)) = Some (PlainStr s).
Proof.
  intros Hn Hl. unfold normalize_name, Name.eqb.
  cbn [Name.upper Name.lower Name.text Name.quoted_name].
  destruct (String.eqb (Str.upper s) s && _) eqn:Hc.
  - exfalso. apply Hn. apply andb_true_iff in Hc as [He Hq].
    apply String.eqb_eq in He. apply negb_true_iff in Hq. now split.
  - destruct (String.eqb (Str.lower s) s) eqn:He; [|reflexivity].
    apply String.eqb_eq in He. contradiction.
Qed.

(** C6.  A storage name that is entirely upper case ([name.upper() ==
    name]) and whose lower-cased form does not require quoting is
    normalised to its lower-cased form, a plain string without the quoted
    flag. *)
Theorem normalize_name_uppercase_storage (s : string) :
  Str.upper s = s ->
  _requires_quotes (Str.lower s) = false ->
  normalize_name (Some (PlainStr s)) = Some (PlainStr (Str.lower s))
  /\ Name.quoted (PlainStr (Str.lower s)) = false.
Proof.
  intros Hu Hq. split; [now apply normalize_name_fold | reflexivity].
Qed.

(** C4.  [denormalize_name] upper-cases a plain name that is entirely
    lower case and does not require quoting as a bare name, and returns
    every other name unchanged: a plain name that fails the test, in
    particular one with an upper-case letter (so every mixed-case name),
    and every name that carries the quoted flag. *)
Theorem denormalize_name_cases (s : string) :
  (Str.lower s = s -> _requires_quotes s = false ->
     denormalize_name (Some (PlainStr s)) = Some (PlainStr (Str.upper s)))
  /\ (~ (Str.lower s = s /\ _requires_quotes s = false) ->
     denormalize_name (Some (PlainStr s)) = Some (PlainStr s))
  /\ (Str.lower s <> s ->
     denormalize_name (Some (PlainStr s)) = Some (PlainStr s))
  /\ denormalize_name (Some (QuotedName s)) = Some (QuotedName s).
Proof.
  split; [apply denormalize_name_fold|].
  split; [apply denormalize_name_keep|].
  split; [|apply denormalize_name_quoted].
  intros Hl. apply denormalize_name_keep. tauto.
Qed.

(** C8.  Both translations are total and propagate an absent or empty
    name: [None] gives [None], a name always gives a name, and the empty
    string gives the empty string ([normalize_name] may put the quoted flag
    on it, the characters stay empty). *)
Theorem normalize_denormalize_absent_empty :
  normalize_name None = None
  /\ denormalize_name None = None
  /\ (forall n, is_Some (normalize_name (Some n)))
  /\ (forall n, is_Some (denormalize_name (Some n)))
  /\ Name.text <$> normalize_name (Some (PlainStr EmptyString)) = Some EmptyString
  /\ denormalize_name (Some (PlainStr EmptyString)) = Some (PlainStr EmptyString).
Proof.
  repeat split.
  - intros n. unfold normalize_name.
    destruct (_ && _); [eauto|]. destruct (Name.eqb _ _); eauto.
  - intros n. unfold denormalize_name. destruct (_ && _); eauto.
  - unfold normalize_name. cbn.
    destruct (_requires_quotes EmptyString); reflexivity.
  - unfold denormalize_name. cbn.
    destruct (_requires_quotes EmptyString); reflexivity.
Qed.

(** C9.  [denormalize_name] is idempotent: its only change, upper-casing
    a plain lower-case name, gives a name a second application leaves as
    it is. *)
Theorem denormalize_name_idempotent (name : option pystr) :
  denormalize_name (denormalize_name name) = denormalize_name name.
Proof.
  destruct name as [[s|s]|]; [| now rewrite !denormalize_name_quoted | reflexivity].
  destruct (Name.eqb (Name.lower (PlainStr s)) (PlainStr s)
            && negb (_requires_quotes (Name.text (Name.lower (PlainStr s)))))
    eqn:Hc.
  - assert (denormalize_name (Some (PlainStr s))
            = Some (PlainStr (Str.upper s))) as ->
      by (unfold denormalize_name; now rewrite Hc).
    clear Hc. unfold denormalize_name. cbn [Name.upper Name.lower Name.text].
    destruct (_ && _); [|reflexivity].
    now rewrite StrFacts.str_upper_upper.
  - assert (denormalize_name (Some (PlainStr s)) = Some (PlainStr s)) as ->
      by (unfold denormalize_name; now rewrite Hc).
    unfold denormalize_name. now rewrite Hc.
Qed.


End NameTranslation.

(** ** The Snowflake preparer *)

Module PreparerFacts.

Import SnowflakeIdentifierPreparer.

Lemma existsb_lower p s :
  (forall c, p (Char.lower c) = p c) ->
  Str.existsb p (Str.lower s) = Str.existsb p s.
Proof.
  intros Hp. induction s as [|c r IH]; simpl; [reflexivity|].
  now rewrite Hp, IH.
Qed.

Lemma legal_initial_lower s : legal_initial (Str.lower s) = legal_initial s.
Proof.
  destruct s as [|c r]; simpl; [reflexivity|].
  now rewrite CharFacts.char_is_letter_lower, CharFacts.char_underscore_lower.
Qed.

(** Lower-casing never adds a reason to quote. *)
Lemma requires_quoting_lower s :
  requires_quoting (Str.lower s) = true -> requires_quoting s = true.
Proof.
  unfold requires_quoting. rewrite StrFacts.str_lower_lower.
  destruct (bool_decide _); [reflexivity|].
  rewrite existsb_lower, legal_initial_lower
    by (intros c; now rewrite CharFacts.char_is_legal_lower).
  destruct (_ || _); [reflexivity|].
  assert (Str.existsb Char.is_upper (Str.lower s) = false) as ->
    by (apply StrFacts.str_lower_fix, StrFacts.str_lower_lower).
  discriminate.
Qed.

(** A name with both an upper-case and a lower-case letter is quoted. *)
Lemma requires_quoting_mixed s :
  Str.lower s <> s -> Str.upper s <> s -> requires_quoting s = true.
Proof.
  intros Hl Hu. unfold requires_quoting.
  destruct (bool_decide _); [reflexivity|].
  destruct (_ || _); [reflexivity|].
  destruct (Str.existsb Char.is_upper s) eqn:Hup.
  - destruct (Str.existsb Char.is_lower s) eqn:Hlo; [reflexivity|].
    exfalso. apply Hu. now apply StrFacts.str_upper_fix.
  - exfalso. apply Hl. now apply StrFacts.str_lower_fix.
Qed.

Lemma upper_word_legal c : Char.is_upper_word c = true -> Char.is_legal c = true.
Proof. CharFacts.by_cases c. Qed.

Lemma upper_word_not_lower c : Char.is_upper_word c = true -> Char.is_lower c = false.
Proof. CharFacts.by_cases c. Qed.

Lemma upper_word_no_illegal s :
  Str.forallb Char.is_upper_word s = true ->
  Str.existsb (fun c => negb (Char.is_legal c)) s = false.
Proof.
  induction s as [|c r IH]; simpl; [reflexivity|].
  intros [Hc Hr]%andb_true_iff.
  now rewrite (upper_word_legal _ Hc), IH.
Qed.

Lemma upper_word_no_lower s :
  Str.forallb Char.is_upper_word s = true ->
  Str.existsb Char.is_lower s = false.
Proof.
  induction s as [|c r IH]; simpl; [reflexivity|].
  intros [Hc Hr]%andb_true_iff.
  now rewrite (upper_word_not_lower _ Hc), IH.
Qed.

Lemma dquote_illegal s :
  Str.contains Char.dquote s = true ->
  Str.existsb (fun c => negb (Char.is_legal c)) s = true.
Proof.
  unfold Str.contains.
  induction s as [|c r IH]; cbn [Str.existsb]; [discriminate|].
  intros [Hc | Hr]%orb_true_iff.
  - apply Ascii.eqb_eq in Hc. subst c. reflexivity.
  - rewrite (IH Hr). apply orb_true_r.
Qed.

Lemma count_app c a b : Str.count c (a ++ b) = Str.count c a + Str.count c b.
Proof. induction a as [|d r IH]; simpl; [reflexivity|]. rewrite IH. lia. Qed.

Lemma count_escaped s :
  Str.count Char.dquote
    (Str.replace Char.dquote (String Char.dquote (String Char.dquote EmptyString)) s)
  = 2 * Str.count Char.dquote s.
Proof.
  induction s as [|c r IH]; [reflexivity|].
  cbn [Str.replace Str.count].
  destruct (Ascii.eqb c Char.dquote) eqn:Hc.
  - rewrite count_app, IH. cbn [Str.count].
    rewrite Ascii.eqb_refl. lia.
  - cbn [Str.count]. rewrite Hc, IH. lia.
Qed.

End PreparerFacts.

Section SnowflakePreparer.

Import SnowflakeIdentifierPreparer.

(** C2, as stated, fails: [1A] is made of an upper-case letter and a
    digit and is not a reserved word, yet it starts with a digit and so
    requires quoting. *)
Lemma requires_quoting_leading_digit :
  Str.forallb Char.is_upper_word "1A" = true
  /\ (Str.lower "1A" ∉ reserved_words)
  /\ _requires_quotes "1A" = true.
Proof.
  split; [reflexivity|]. split; [|reflexivity].
  apply (bool_decide_eq_false_1 (Str.lower "1A" ∈ reserved_words)).
  vm_compute. reflexivity.
Qed.

(** C2, amended.  A name made only of upper-case letters, digits and
    underscores that starts with a letter or an underscore, and whose
    lower-cased form is not a reserved word, does not require quoting. *)
Theorem requires_quoting_bare_uppercase (s : string) :
  Str.forallb Char.is_upper_word s = true ->
  legal_initial s = true ->
  (Str.lower s ∉ reserved_words) ->
  _requires_quotes s = false.
Proof.
  intros Hw Hi Hr. cbn [_requires_quotes snowflake_preparer].
  unfold requires_quoting.
  rewrite (bool_decide_eq_false_2 _ Hr).
  rewrite (PreparerFacts.upper_word_no_illegal _ Hw), Hi.
  rewrite (PreparerFacts.upper_word_no_lower _ Hw).
  cbn. now rewrite andb_false_r.
Qed.

(** C3, as stated, fails on its last case: the mixed-case storage name
    [MyTable] is returned as the plain string it was, with no flag on
    it. *)
Lemma normalize_name_mixed_case_plain :
  ~ (Str.upper "MyTable" = "MyTable"
     /\ _requires_quotes (Str.lower "MyTable") = false)
  /\ Str.lower "MyTable" <> "MyTable"
  /\ normalize_name (Some (PlainStr "MyTable")) = Some (PlainStr "MyTable")
  /\ Name.quoted <$> normalize_name (Some (PlainStr "MyTable")) = Some false.
Proof.
  split; [intros [H _]; discriminate H|].
  split; [discriminate|]. split; reflexivity.
Qed.

(** C3, amended.  A storage name that is not (entirely upper case and
    quote-free when lower-cased) is returned with its characters
    unchanged: with the quoted flag when it is entirely lower case, and
    otherwise as the plain string it was, without a flag; such a name
    requires quoting by its characters alone. *)
Theorem normalize_name_not_folded (s : string) :
  ~ (Str.upper s = s /\ _requires_quotes (Str.lower s) = false) ->
  (Str.lower s = s ->
     normalize_name (Some (PlainStr s)) = Some (QuotedName s))
  /\ (Str.lower s <> s ->
     normalize_name (Some (PlainStr s)) = Some (PlainStr s)
     /\ _requires_quotes s = true).
Proof.
  intros Hn. split; [now apply normalize_name_lowercase|].
  intros Hl. split; [now apply normalize_name_other|].
  cbn [_requires_quotes snowflake_preparer] in *.
  destruct (string_dec (Str.upper s) s) as [Hu|Hu].
  - apply PreparerFacts.requires_quoting_lower.
    destruct (requires_quoting (Str.lower s)); [reflexivity|].
    exfalso. apply Hn. now split.
  - now apply PreparerFacts.requires_quoting_mixed.
Qed.

(** Dropping a [None] part leaves the joined name as it is. *)
Lemma denormalize_quote_join_skip l1 l2 :
  _denormalize_quote_join (l1 ++ None :: l2) = _denormalize_quote_join (l1 ++ l2).
Proof.
  unfold _denormalize_quote_join, _quote_free_identifiers.
  now rewrite !omap_app.
Qed.

(** Parts that are all present are quoted one by one and joined. *)
Lemma denormalize_quote_join_present parts :
  _denormalize_quote_join (map Some parts) = Str.join "." (map quote parts).
Proof.
  unfold _denormalize_quote_join, _quote_free_identifiers.
  f_equal. f_equal. induction parts as [|p r IH]; cbn; [reflexivity|].
  now rewrite IH.
Qed.

(** C5, as stated, fails on its last example: in the join of [public]
    and [Orders] only the mixed-case part is quoted. *)
Lemma denormalize_quote_join_public_Orders :
  _denormalize_quote_join [Some (PlainStr "public"); Some (PlainStr "Orders")]
  = "public." ++ String Char.dquote ("Orders" ++ String Char.dquote EmptyString)
  /\ _denormalize_quote_join [Some (PlainStr "public"); Some (PlainStr "Orders")]
     <> String Char.dquote ("public" ++ String Char.dquote
          ("." ++ String Char.dquote ("Orders" ++ String Char.dquote EmptyString))).
Proof. split; [vm_compute; reflexivity | vm_compute; discriminate]. Qed.

(** C5, amended.  The join skips the [None] parts, so that no separator
    stands next to a skipped part, and quotes every part by itself; the
    join of [None] and [orders] is [orders], the join of [public] and
    [orders] is [public.orders], and in the join of [public] and [Orders]
    the second part alone is quoted. *)
Theorem denormalize_quote_join_parts :
  (forall l1 l2 : list (option pystr),
     _denormalize_quote_join (l1 ++ None :: l2)
     = _denormalize_quote_join (l1 ++ l2))
  /\ (forall parts : list pystr,
     _denormalize_quote_join (map Some parts) = Str.join "." (map quote parts))
  /\ _denormalize_quote_join [None; Some (PlainStr "orders")] = "orders"
  /\ _denormalize_quote_join [Some (PlainStr "public"); Some (PlainStr "orders")]
     = "public.orders"
  /\ _denormalize_quote_join [Some (PlainStr "public"); Some (PlainStr "Orders")]
     = "public." ++ String Char.dquote ("Orders" ++ String Char.dquote EmptyString).
Proof.
  split; [apply denormalize_quote_join_skip|].
  split; [apply denormalize_quote_join_present|].
  repeat split; vm_compute; reflexivity.
Qed.

(** C7.  A name that contains the quote character is wrapped in quote
    characters with every embedded quote character doubled, so the output
    holds two quote characters for each one of the name, and the two
    around it. *)
Theorem quote_doubles_embedded_quote (ident : pystr) :
  Str.contains Char.dquote (Name.text ident) = true ->
  quote ident
  = String Char.dquote
      (Str.replace Char.dquote (String Char.dquote (String Char.dquote EmptyString))
                   (Name.text ident)
       ++ String Char.dquote EmptyString)
  /\ Str.count Char.dquote (quote ident)
     = 2 + 2 * Str.count Char.dquote (Name.text ident).
Proof.
  intros Hq.
  assert (quote ident = quote_identifier (Name.text ident)) as ->.
  { cbn [quote snowflake_preparer]. unfold quote_if_needed, requires_quoting.
    rewrite (PreparerFacts.dquote_illegal _ Hq).
    destruct (bool_decide _); cbn; now rewrite orb_true_r. }
  split; [reflexivity|].
  unfold quote_identifier, initial_quote, escape_quote.
  cbn [Str.count]. rewrite Ascii.eqb_refl.
  rewrite PreparerFacts.count_app, PreparerFacts.count_escaped.
  cbn [Str.count]. rewrite Ascii.eqb_refl. lia.
Qed.

End SnowflakePreparer.

(** ** Names beyond ASCII *)

Section UnicodeNames.

Lemma N_of_ascii_below c :
  (N_of_ascii c <? 128)%N = (Char.code c <? 128)%nat.
Proof. CharFacts.by_cases c. Qed.

Lemma is_ascii_lower s : Str.is_ascii (Str.lower s) = Str.is_ascii s.
Proof.
  unfold Str.is_ascii. induction s as [|c r IH]; [reflexivity|].
  cbn [Str.lower Str.forallb]. rewrite IH. f_equal. CharFacts.by_cases c.
Qed.

Lemma is_ascii_upper s : Str.is_ascii (Str.upper s) = Str.is_ascii s.
Proof.
  unfold Str.is_ascii. induction s as [|c r IH]; [reflexivity|].
  cbn [Str.upper Str.forallb]. rewrite IH. f_equal. CharFacts.by_cases c.
Qed.

(** On a string of ASCII characters the case mapping of code points is
    the case mapping of characters. *)
Lemma lower_of_string s :
  Str.is_ascii s = true -> Unicode.lower (Unicode.of_string s) = Some (Unicode.of_string (Str.lower s)).
Proof.
  unfold Str.is_ascii. induction s as [|c r IH]; [reflexivity|].
  cbn [Str.forallb Unicode.of_string Unicode.lower Str.lower].
  intros [Hc Hr]%andb_true_iff. rewrite (IH Hr).
  unfold Unicode.lower_cp. now rewrite N_of_ascii_below, Hc, ascii_N_embedding.
Qed.

Lemma upper_of_string s :
  Str.is_ascii s = true -> Unicode.upper (Unicode.of_string s) = Some (Unicode.of_string (Str.upper s)).
Proof.
  unfold Str.is_ascii. induction s as [|c r IH]; [reflexivity|].
  cbn [Str.forallb Unicode.of_string Unicode.upper Str.upper].
  intros [Hc Hr]%andb_true_iff. rewrite (IH Hr).
  unfold Unicode.upper_cp. now rewrite N_of_ascii_below, Hc, ascii_N_embedding.
Qed.

Lemma to_ascii_of_string s :
  Str.is_ascii s = true -> Unicode.to_ascii (Unicode.of_string s) = Some s.
Proof.
  unfold Str.is_ascii. induction s as [|c r IH]; [reflexivity|].
  cbn [Str.forallb Unicode.of_string Unicode.to_ascii].
  intros [Hc Hr]%andb_true_iff.
  now rewrite N_of_ascii_below, Hc, (IH Hr), ascii_N_embedding.
Qed.

Lemma of_string_inj a b : Unicode.of_string a = Unicode.of_string b -> a = b.
Proof.
  revert b. induction a as [|c a IH]; intros [|d b]; cbn; try discriminate;
    [reflexivity|].
  intros [= Hc Hr]. f_equal; [|now apply IH].
  rewrite <- (ascii_N_embedding c), <- (ascii_N_embedding d). now rewrite Hc.
Qed.

Lemma eqb_of_name a b :
  Unicode.eqb (Unicode.of_name a) (Unicode.of_name b) = Name.eqb a b.
Proof.
  unfold Unicode.eqb, Name.eqb.
  assert (Unicode.text (Unicode.of_name a) = Unicode.of_string (Name.text a)) as -> by now destruct a.
  assert (Unicode.text (Unicode.of_name b) = Unicode.of_string (Name.text b)) as -> by now destruct b.
  destruct (String.eqb (Name.text a) (Name.text b)) eqn:E.
  - apply String.eqb_eq in E. rewrite E. now apply bool_decide_eq_true_2.
  - apply String.eqb_neq in E. apply bool_decide_eq_false_2.
    intros H. now apply E, of_string_inj.
Qed.

(** On names made of ASCII characters, the translation on code points is
    the translation on characters under the preparer of the dialect. *)
Lemma unicode_eqb_refl a : Unicode.eqb a a = true.
Proof. unfold Unicode.eqb. now apply bool_decide_eq_true_2. Qed.

Lemma unicode_normalize_name_ascii (n : pystr) :
  Str.is_ascii (Name.text n) = true ->
  Unicode.normalize_name (Some (Unicode.of_name n))
  = Some (Unicode.of_name <$> normalize_name (Some n)).
Proof.
  intros Ha. destruct n as [s|s]; cbn [Name.text] in Ha.
  - unfold Unicode.normalize_name, normalize_name.
    cbn [Unicode.of_name Unicode.name_upper Unicode.name_lower Name.upper
         Name.lower Name.text].
    rewrite (upper_of_string s Ha), (lower_of_string s Ha).
    cbn [fmap option_fmap option_map mbind option_bind].
    change (Unicode.UPlain (Unicode.of_string (Str.upper s)))
      with (Unicode.of_name (PlainStr (Str.upper s))).
    change (Unicode.UPlain (Unicode.of_string (Str.lower s)))
      with (Unicode.of_name (PlainStr (Str.lower s))).
    change (Unicode.UPlain (Unicode.of_string s))
      with (Unicode.of_name (PlainStr s)).
    rewrite !eqb_of_name. cbn [Unicode.text Unicode.of_name].
    unfold Unicode.requires_quoting.
    rewrite to_ascii_of_string by now rewrite is_ascii_lower.
    cbn [_requires_quotes snowflake_preparer Name.text].
    destruct (_ && _); [reflexivity|].
    destruct (Name.eqb _ _); reflexivity.
  - rewrite normalize_name_quoted. unfold Unicode.normalize_name.
    cbn [Unicode.of_name Unicode.name_upper Unicode.name_lower
         mbind option_bind Unicode.text fmap option_fmap option_map].
    rewrite unicode_eqb_refl. now destruct (_ && _).
Qed.

Lemma unicode_denormalize_name_ascii (n : pystr) :
  Str.is_ascii (Name.text n) = true ->
  Unicode.denormalize_name (Some (Unicode.of_name n))
  = Some (Unicode.of_name <$> denormalize_name (Some n)).
Proof.
  intros Ha. destruct n as [s|s]; cbn [Name.text] in Ha.
  - unfold Unicode.denormalize_name, denormalize_name.
    cbn [Unicode.of_name Unicode.name_upper Unicode.name_lower Name.upper
         Name.lower Name.text].
    rewrite (upper_of_string s Ha), (lower_of_string s Ha).
    cbn [fmap option_fmap option_map mbind option_bind].
    change (Unicode.UPlain (Unicode.of_string (Str.lower s)))
      with (Unicode.of_name (PlainStr (Str.lower s))).
    change (Unicode.UPlain (Unicode.of_string s))
      with (Unicode.of_name (PlainStr s)).
    rewrite !eqb_of_name. cbn [Unicode.text Unicode.of_name].
    unfold Unicode.requires_quoting.
    rewrite to_ascii_of_string by now rewrite is_ascii_lower.
    cbn [_requires_quotes snowflake_preparer Name.text].
    destruct (_ && _); reflexivity.
  - rewrite denormalize_name_quoted. unfold Unicode.denormalize_name.
    cbn [Unicode.of_name Unicode.name_upper Unicode.name_lower
         mbind option_bind Unicode.text fmap option_fmap option_map].
    now destruct (_ && _).
Qed.


End UnicodeNames.

(** ** Connection arguments *)

Module SplitFacts.

(** [split] returns one piece more than there are separators. *)
Lemma split_length sep s : length (Str.split sep s) = S (Str.count sep s).
Proof.
  induction s as [|c r IH]; cbn [Str.split Str.count]; [reflexivity|].
  destruct (Ascii.eqb c sep); cbn [length]; [now rewrite IH|].
  destruct (Str.split sep r); cbn [length] in *; lia.
Qed.

Lemma split_none sep s : Str.count sep s = 0 -> Str.split sep s = [s].
Proof.
  induction s as [|c r IH]; cbn [Str.split Str.count]; [reflexivity|].
  destruct (Ascii.eqb c sep); [discriminate|].
  intros H. now rewrite IH.
Qed.

Lemma split_one sep s :
  Str.count sep s = 1 ->
  exists a b, Str.split sep s = [a; b] /\ s = a ++ String sep b
              /\ Str.count sep a = 0 /\ Str.count sep b = 0.
Proof.
  induction s as [|c r IH]; cbn [Str.split Str.count]; [discriminate|].
  destruct (Ascii.eqb c sep) eqn:Hc.
  - intros [= H]. apply Ascii.eqb_eq in Hc. subst c.
    exists EmptyString, r. rewrite (split_none _ _ H). now repeat split.
  - intros H. destruct (IH H) as (a & b & Hs & -> & Ha & Hb).
    exists (String c a), b. rewrite Hs. repeat split; [|assumption].
    cbn [Str.count]. now rewrite Hc.
Qed.

End SplitFacts.

Section ConnectArgsFacts.

Import ConnectArgs.

Implicit Types opts query : gmap string pyval.

(** The three outcomes of the name-space block on a string. *)
Lemma name_spaces_none opts d :
  opts !! "database" = Some (PStr d) -> Str.count "/" d = 0 ->
  name_spaces opts = inr opts.
Proof.
  intros Hd Hc. unfold name_spaces.
  now rewrite Hd, (SplitFacts.split_none _ _ Hc).
Qed.

Lemma name_spaces_one opts d :
  opts !! "database" = Some (PStr d) -> Str.count "/" d = 1 ->
  exists db schema,
    d = db ++ String "/" schema
    /\ Str.count "/" db = 0 /\ Str.count "/" schema = 0
    /\ name_spaces opts
       = inr (<["schema" := PStr schema]> (<["database" := PStr db]> opts)).
Proof.
  intros Hd Hc.
  destruct (SplitFacts.split_one _ _ Hc) as (a & b & Hs & He & Ha & Hb).
  exists a, b. repeat split; try assumption.
  unfold name_spaces. now rewrite Hd, Hs.
Qed.

Lemma name_spaces_many opts d :
  opts !! "database" = Some (PStr d) -> 2 <= Str.count "/" d ->
  name_spaces opts
  = inl (ArgumentError ("Invalid name space is specified: " ++ d)).
Proof.
  intros Hd Hc. unfold name_spaces. rewrite Hd.
  pose proof (SplitFacts.split_length "/" d) as Hl.
  destruct (Str.split "/" d) as [|a [|b [|c l]]]; cbn [length] in Hl;
    first [reflexivity | lia].
Qed.

(** The block raises nothing but [ArgumentError] on a string, and only
    for three parts or more. *)
Lemma name_spaces_error opts msg :
  name_spaces opts = inl (ArgumentError msg) ->
  exists d, opts !! "database" = Some (PStr d) /\ 2 <= Str.count "/" d.
Proof.
  unfold name_spaces.
  destruct (opts !! "database") as [[d| |]|] eqn:Hd; try discriminate.
  intros H. exists d. split; [reflexivity|].
  pose proof (SplitFacts.split_length "/" d) as Hl.
  destruct (Str.split "/" d) as [|a [|b [|c l]]]; cbn [length] in Hl;
    first [discriminate | lia].
Qed.

(** The host block raises no [ArgumentError]. *)
Lemma account_host_error opts msg :
  account_host opts <> inl (ArgumentError msg).
Proof.
  unfold account_host.
  destruct (opts !! "host") as [[h| |]|]; try discriminate.
  destruct (negb _); discriminate.
Qed.

(** With a string host it returns, and leaves every option but
    [account], [host] and [port] as it was. *)
Lemma account_host_frame opts host :
  opts !! "host" = Some (PStr host) ->
  exists opts', account_host opts = inr opts'
    /\ forall k, k <> "account" -> k <> "host" -> k <> "port" ->
         opts' !! k = opts !! k.
Proof.
  intros Hh. unfold account_host. rewrite Hh.
  destruct (negb _); eexists; (split; [reflexivity|]); [|done].
  intros k Ha Hho Hp. now rewrite !lookup_insert_ne by congruence.
Qed.

(** The options returned when both blocks succeed. *)
Lemma create_connect_args_returns opts query opts1 host k v :
  name_spaces opts = inr opts1 ->
  opts1 !! "host" = Some (PStr host) ->
  k <> "account" -> k <> "host" -> k <> "port" -> k <> "autocommit" ->
  query !! k = None ->
  opts1 !! k = Some v ->
  exists r, create_connect_args opts query = inr ([], r) /\ r !! k = Some v.
Proof.
  intros Hn Hh Ha Hho Hp Hau Hq Hv.
  destruct (account_host_frame _ _ Hh) as (opts2 & H2 & Hframe).
  unfold create_connect_args. rewrite Hn. cbn [bind]. rewrite H2. cbn [bind].
  eexists. split; [reflexivity|].
  rewrite lookup_union_r by assumption.
  rewrite lookup_insert_ne by congruence.
  now rewrite Hframe.
Qed.

(** C10.  [create_connect_args] raises [ArgumentError] exactly when the
    [database] option holds two or more separators.  With exactly one, the
    text before it becomes the [database] option and the text after it the
    [schema] option; with none, the options are left as they are.  When the
    call returns (the host is a string) these are the values of the
    options returned, unless [url.query] sets the same keys. *)
Theorem create_connect_args_name_spaces opts query :
  ((exists msg, create_connect_args opts query = inl (ArgumentError msg))
     <-> exists d, opts !! "database" = Some (PStr d) /\ 2 <= Str.count "/" d)
  /\ (forall d, opts !! "database" = Some (PStr d) -> Str.count "/" d = 1 ->
        exists db schema,
          d = db ++ String "/" schema
          /\ Str.count "/" db = 0 /\ Str.count "/" schema = 0
          /\ name_spaces opts
             = inr (<["schema" := PStr schema]> (<["database" := PStr db]> opts))
          /\ (forall host,
                opts !! "host" = Some (PStr host) ->
                query !! "database" = None -> query !! "schema" = None ->
                exists r, create_connect_args opts query = inr ([], r)
                          /\ r !! "database" = Some (PStr db)
                          /\ r !! "schema" = Some (PStr schema)))
  /\ (forall d, opts !! "database" = Some (PStr d) -> Str.count "/" d = 0 ->
        name_spaces opts = inr opts
        /\ (forall host,
              opts !! "host" = Some (PStr host) ->
              query !! "database" = None ->
              exists r, create_connect_args opts query = inr ([], r)
                        /\ r !! "database" = Some (PStr d))).
Proof.
  split; [split|split].
  - intros [msg H]. unfold create_connect_args in H.
    destruct (name_spaces opts) as [e|opts1] eqn:Hn; cbn [bind] in H.
    + injection H as ->. now apply name_spaces_error in Hn.
    + destruct (account_host opts1) as [e|opts2] eqn:H2; cbn [bind] in H;
        [|discriminate].
      injection H as ->. now apply account_host_error in H2.
  - intros (d & Hd & Hc). eexists. unfold create_connect_args.
    rewrite (name_spaces_many _ _ Hd Hc). reflexivity.
  - intros d Hd Hc.
    destruct (name_spaces_one _ _ Hd Hc) as (db & schema & He & Ha & Hb & Hn).
    exists db, schema. repeat split; try assumption.
    intros host Hh Hqd Hqs.
    assert (<["schema" := PStr schema]> (<["database" := PStr db]> opts)
              !! "host" = Some (PStr host)) as Hh'
      by now rewrite !lookup_insert_ne by done.
    destruct (create_connect_args_returns opts query _ host "database" (PStr db) Hn Hh')
      as (r & Hr & Hrd); try done.
    { rewrite lookup_insert_ne by done. apply lookup_insert_eq. }
    destruct (create_connect_args_returns opts query _ host "schema" (PStr schema) Hn Hh')
      as (r' & Hr' & Hrs); try done.
    { apply lookup_insert_eq. }
    rewrite Hr in Hr'. injection Hr' as <-. now exists r.
  - intros d Hd Hc. pose proof (name_spaces_none _ _ Hd Hc) as Hn.
    split; [exact Hn|]. intros host Hh Hqd.
    now apply (create_connect_args_returns opts query opts host).
Qed.

End ConnectArgsFacts.

(** ** The properties at concrete names *)

Section Instances.

Import SnowflakeIdentifierPreparer ConnectArgs.

(** [ORDERS] is normalised to [orders]. *)
Lemma ORDERS_is_folded_to_lowercase :
  Str.upper "ORDERS" = "ORDERS"
  /\ _requires_quotes (Str.lower "ORDERS") = false
  /\ normalize_name (Some (PlainStr "ORDERS")) = Some (PlainStr "orders").
Proof.
  split; [reflexivity|]. split; [vm_compute; reflexivity|].
  apply (normalize_name_uppercase_storage "ORDERS"); vm_compute; reflexivity.
Defined.

(** [orders] is denormalised to [ORDERS]; the reserved word [select] is
    kept. *)
Lemma orders_is_stored_uppercase :
  denormalize_name (Some (PlainStr "orders")) = Some (PlainStr "ORDERS")
  /\ denormalize_name (Some (PlainStr "select")) = Some (PlainStr "select").
Proof.
  split.
  - destruct (denormalize_name_cases "orders") as (H & _).
    apply H; vm_compute; reflexivity.
  - destruct (denormalize_name_cases "select") as (_ & H & _).
    apply H. intros [_ Hq]. vm_compute in Hq. discriminate Hq.
Defined.


(** [MY_TABLE1] is emitted bare. *)
Lemma MY_TABLE1_is_bare :
  Str.forallb Char.is_upper_word "MY_TABLE1" = true
  /\ legal_initial "MY_TABLE1" = true
  /\ (Str.lower "MY_TABLE1" ∉ reserved_words)
  /\ _requires_quotes "MY_TABLE1" = false.
Proof.
  assert (Str.lower "MY_TABLE1" ∉ reserved_words) as Hr.
  { apply (bool_decide_eq_false_1 (Str.lower "MY_TABLE1" ∈ reserved_words)).
    vm_compute. reflexivity. }
  split; [reflexivity|]. split; [reflexivity|]. split; [exact Hr|].
  apply (requires_quoting_bare_uppercase "MY_TABLE1");
    [reflexivity | reflexivity | exact Hr].
Defined.

(** [MyTable] comes back plain and requires quoting; the reserved word
    [select] comes back with the quoted flag. *)
Lemma MyTable_is_kept :
  (normalize_name (Some (PlainStr "MyTable")) = Some (PlainStr "MyTable")
   /\ _requires_quotes "MyTable" = true)
  /\ normalize_name (Some (PlainStr "select")) = Some (QuotedName "select").
Proof.
  split.
  - destruct (normalize_name_not_folded "MyTable") as (_ & H).
    + intros [Hu _]. vm_compute in Hu. discriminate Hu.
    + apply H. vm_compute. discriminate.
  - destruct (normalize_name_not_folded "select") as (H & _).
    + intros [_ Hq]. vm_compute in Hq. discriminate Hq.
    + apply H. reflexivity.
Defined.

(** The name made of [a], a quote character and [b] is emitted as: quote,
    [a], quote, quote, [b], quote. *)
Lemma a_quote_b_is_escaped :
  Str.contains Char.dquote ("a" ++ String Char.dquote "b") = true
  /\ quote (PlainStr ("a" ++ String Char.dquote "b"))
     = String Char.dquote
         ("a" ++ String Char.dquote
            (String Char.dquote ("b" ++ String Char.dquote EmptyString))).
Proof.
  split; [reflexivity|].
  destruct (quote_doubles_embedded_quote
              (PlainStr ("a" ++ String Char.dquote "b"))) as [H _];
    [reflexivity|].
  rewrite H. reflexivity.
Defined.

(** The database [sales/public] on the account [acct]. *)
Lemma sales_public_is_split :
  let opts : gmap string pyval :=
    <["database" := PStr "sales/public"]> (<["host" := PStr "acct"]> ∅) in
  opts !! "database" = Some (PStr "sales/public")
  /\ Str.count "/" "sales/public" = 1
  /\ opts !! "host" = Some (PStr "acct")
  /\ exists db schema,
       "sales/public" = db ++ String "/" schema
       /\ exists r, create_connect_args opts ∅ = inr ([], r)
                    /\ r !! "database" = Some (PStr db)
                    /\ r !! "schema" = Some (PStr schema).
Proof.
  intros opts.
  split; [reflexivity|]. split; [reflexivity|]. split; [reflexivity|].
  destruct (create_connect_args_name_spaces opts ∅) as (_ & H & _).
  destruct (H "sales/public") as (db & schema & He & _ & _ & _ & Hr);
    [reflexivity | reflexivity |].
  exists db, schema. split; [exact He|].
  apply (Hr "acct"); reflexivity.
Defined.

(** The same call, evaluated. *)
Example create_connect_args_sales_public :
  match create_connect_args
          (<["database" := PStr "sales/public"]> (<["host" := PStr "acct"]> ∅))
          ∅ with
  | inr (args, r) =>
      args = []
      /\ r !! "database" = Some (PStr "sales")
      /\ r !! "schema" = Some (PStr "public")
      /\ r !! "account" = Some (PStr "acct")
      /\ r !! "host" = Some (PStr "acct.snowflakecomputing.com")
      /\ r !! "port" = Some (PStr "443")
      /\ r !! "autocommit" = Some (PBool false)
  | inl _ => False
  end.
Proof. vm_compute. repeat split. Qed.

(** Three parts are refused. *)
Example create_connect_args_three_parts :
  create_connect_args (<["database" := PStr "a/b/c"]> ∅) ∅
  = inl (ArgumentError "Invalid name space is specified: a/b/c").
Proof. vm_compute. reflexivity. Qed.

(** Without a host the call ends with [KeyError]. *)
Example create_connect_args_no_host :
  create_connect_args (<["database" := PStr "sales"]> ∅) ∅
  = inl (KeyError "host").
Proof. vm_compute. reflexivity. Qed.

End Instances.

(** * Further properties of the dialect *)

(** ** What the name translation keeps *)

Section NameTranslationLaws.

Context {identifier_preparer : IdentifierPreparer}.

(** The three branches of [normalize_name] on a plain string, as one case
    analysis. *)
Lemma normalize_name_branches s :
  (Str.upper s = s /\ _requires_quotes (Str.lower s) = false
   /\ normalize_name (Some (PlainStr s)) = Some (PlainStr (Str.lower s)))
  \/ (~ (Str.upper s = s /\ _requires_quotes (Str.lower s) = false)
      /\ Str.lower s = s
      /\ normalize_name (Some (PlainStr s)) = Some (QuotedName s))
  \/ (~ (Str.upper s = s /\ _requires_quotes (Str.lower s) = false)
      /\ Str.lower s <> s
      /\ normalize_name (Some (PlainStr s)) = Some (PlainStr s)).
Proof.
  destruct (string_dec (Str.upper s) s) as [Hu|Hu];
    [destruct (_requires_quotes (Str.lower s)) eqn:Hq|].
  - right. assert (~ (Str.upper s = s /\ true = false)) as Hn
      by (intros [_ H]; discriminate H).
    destruct (string_dec (Str.lower s) s) as [Hl|Hl]; [left|right].
    + repeat split; [exact Hn | exact Hl |].
      apply normalize_name_lowercase; [now rewrite Hq | exact Hl].
    + repeat split; [exact Hn | exact Hl |].
      apply normalize_name_other; [now rewrite Hq | exact Hl].
  - left. repeat split; [exact Hu |]. now apply normalize_name_fold.
  - right. assert (~ (Str.upper s = s /\ _requires_quotes (Str.lower s) = false))
      as Hn by tauto.
    destruct (string_dec (Str.lower s) s) as [Hl|Hl]; [left|right].
    + repeat split; [tauto | exact Hl |]. now apply normalize_name_lowercase.
    + repeat split; [tauto | exact Hl |]. now apply normalize_name_other.
Qed.

(** The characters of a name survive [normalize_name] followed by
    [denormalize_name]. *)
Lemma denormalize_normalize_chars (n : pystr) :
  Name.text <$> denormalize_name (normalize_name (Some n)) = Some (Name.text n).
Proof.
  destruct n as [s|s];
    [|now rewrite normalize_name_quoted, denormalize_name_quoted].
  destruct (normalize_name_branches s)
    as [(Hu & Hq & ->) | [(Hn & Hl & ->) | (Hn & Hl & ->)]].
  - rewrite denormalize_name_fold;
      [| apply StrFacts.str_lower_lower | exact Hq].
    cbn. now rewrite StrFacts.str_upper_lower, Hu.
  - now rewrite denormalize_name_quoted.
  - rewrite denormalize_name_keep; [reflexivity | tauto].
Qed.

(** Storage names with the same canonical name are the same. *)
Lemma normalize_name_inj (s1 s2 : string) :
  normalize_name (Some (PlainStr s1)) = normalize_name (Some (PlainStr s2)) ->
  s1 = s2.
Proof.
  intros H.
  pose proof (denormalize_normalize_chars (PlainStr s1)) as H1.
  pose proof (denormalize_normalize_chars (PlainStr s2)) as H2.
  rewrite H, H2 in H1. now injection H1.
Qed.

(** X1.  Whatever the name made of ASCII characters, [denormalize_name]
    gives back the characters [normalize_name] was given: the translation
    into canonical form loses no character and no case. *)
Theorem denormalize_normalize_text (n : pystr) :
  Str.is_ascii (Name.text n) = true ->
  Name.text <$> denormalize_name (normalize_name (Some n)) = Some (Name.text n).
Proof. intros _. apply denormalize_normalize_chars. Qed.

(** X2.  Two storage names made of ASCII characters with the same
    canonical name, flag included, are the same storage name. *)
Theorem normalize_name_injective (s1 s2 : string) :
  Str.is_ascii s1 = true -> Str.is_ascii s2 = true ->
  normalize_name (Some (PlainStr s1)) = normalize_name (Some (PlainStr s2)) ->
  s1 = s2.
Proof. intros _ _. apply normalize_name_inj. Qed.

(** X3.  Going to storage form and back changes nothing in a canonical
    name: [normalize_name] after [denormalize_name] after [normalize_name]
    is [normalize_name]. *)
Theorem normalize_denormalize_normalize (name : option pystr) :
  normalize_name (denormalize_name (normalize_name name)) = normalize_name name.
Proof.
  destruct name as [[s|s]|]; [| | reflexivity].
  - destruct (normalize_name_branches s)
      as [(Hu & Hq & Hn) | [(Hn & Hl & Hr) | (Hn & Hl & Hr)]]; rewrite ?Hn, ?Hr.
    + rewrite denormalize_name_fold;
        [| apply StrFacts.str_lower_lower | exact Hq].
      now rewrite StrFacts.str_upper_lower, Hu.
    + now rewrite denormalize_name_quoted, normalize_name_quoted.
    + rewrite denormalize_name_keep; [exact Hr | tauto].
  - now rewrite normalize_name_quoted, denormalize_name_quoted,
      normalize_name_quoted.
Qed.

(** X4.  Both translations change nothing but the case of letters: the
    name returned has the lower-cased characters of the name given. *)
Theorem translation_changes_case_only (n : pystr) :
  (Str.lower ∘ Name.text) <$> normalize_name (Some n)
    = Some (Str.lower (Name.text n))
  /\ (Str.lower ∘ Name.text) <$> denormalize_name (Some n)
    = Some (Str.lower (Name.text n)).
Proof.
  split.
  - destruct n as [s|s]; [| now rewrite normalize_name_quoted].
    destruct (normalize_name_branches s)
      as [(_ & _ & ->) | [(_ & _ & ->) | (_ & _ & ->)]]; cbn;
      now rewrite ?StrFacts.str_lower_lower.
  - unfold denormalize_name. destruct (_ && _); [|reflexivity].
    destruct n as [s|s]; cbn; [|reflexivity].
    f_equal. clear. induction s as [|c r IH]; cbn; [reflexivity|].
    rewrite IH. f_equal. CharFacts.by_cases c.
Qed.

(** X5.  [normalize_name] puts the quoted flag on a storage name exactly
    when the name is entirely lower case and is not one it folds (upper
    case as well, and quote-free); [denormalize_name] never adds or removes
    the flag. *)
Theorem quoted_flag_of_translation (s : string) (n : pystr) :
  (Name.quoted <$> normalize_name (Some (PlainStr s)) = Some true
     <-> Str.lower s = s
         /\ ~ (Str.upper s = s /\ _requires_quotes (Str.lower s) = false))
  /\ Name.quoted <$> denormalize_name (Some n) = Some (Name.quoted n).
Proof.
  split.
  - destruct (normalize_name_branches s)
      as [(Hu & Hq & ->) | [(Hn & Hl & ->) | (Hn & Hl & ->)]]; cbn.
    + split; [discriminate | tauto].
    + tauto.
    + split; [discriminate | tauto].
  - unfold denormalize_name. destruct (_ && _); [|reflexivity].
    destruct n; reflexivity.
Qed.

(** X6.  [normalize_name] is not idempotent.  A storage name it folds,
    when it holds a letter, folds to a name that a second application
    flags as quoted; so the upper-case name and its lower-case twin get
    canonical names with the same characters, apart by the flag alone. *)
Theorem normalize_name_twice (s : string) :
  Str.upper s = s -> _requires_quotes (Str.lower s) = false ->
  Str.lower s <> s ->
  normalize_name (Some (PlainStr s)) = Some (PlainStr (Str.lower s))
  /\ normalize_name (Some (PlainStr (Str.lower s)))
     = Some (QuotedName (Str.lower s))
  /\ normalize_name (normalize_name (Some (PlainStr s)))
     = Some (QuotedName (Str.lower s)).
Proof.
  intros Hu Hq Hl.
  assert (normalize_name (Some (PlainStr (Str.lower s)))
          = Some (QuotedName (Str.lower s))) as H2.
  { apply normalize_name_lowercase; [|apply StrFacts.str_lower_lower].
    intros [H _]. rewrite StrFacts.str_upper_lower, Hu in H. now apply Hl. }
  rewrite (normalize_name_fold s Hu Hq). now repeat split.
Qed.

End NameTranslationLaws.

(** ** The reserved words *)

Section ReservedWords.

Import SnowflakeIdentifierPreparer.

Lemma char_lower_of_upper c : Char.lower (Char.upper c) = Char.lower c.
Proof. CharFacts.by_cases c. Qed.

Lemma str_lower_of_upper s : Str.lower (Str.upper s) = Str.lower s.
Proof.
  induction s as [|c r IH]; cbn; [reflexivity|].
  now rewrite char_lower_of_upper, IH.
Qed.

(** Every word of [RESERVED_WORDS] is written in upper case. *)
Lemma RESERVED_WORDS_upper : Forall (fun w => Str.upper w = w) RESERVED_WORDS.
Proof. unfold RESERVED_WORDS. repeat constructor. Qed.

(** The lower-cased form of a name is in [reserved_words] exactly when
    its upper-cased form is one of [RESERVED_WORDS]. *)
Lemma reserved_words_lower_upper (s : string) :
  Str.lower s ∈ reserved_words <-> Str.upper s ∈ RESERVED_WORDS.
Proof.
  unfold reserved_words.
  rewrite elem_of_list_to_set, !list_elem_of_In, in_map_iff.
  split.
  - intros (w & Hw & Hin).
    pose proof (proj1 (Forall_forall _ _) RESERVED_WORDS_upper w
                  (proj2 (list_elem_of_In _ _) Hin)) as Hup.
    apply (f_equal Str.upper) in Hw.
    rewrite !StrFacts.str_upper_lower, Hup in Hw. now rewrite <- Hw.
  - intros Hin. exists (Str.upper s). split; [apply str_lower_of_upper | exact Hin].
Qed.

(** X7.  On names made of ASCII characters the preparer's set of
    reserved words is [RESERVED_WORDS] without regard to case: the
    lower-cased form of the name is in [reserved_words] exactly when its
    upper-cased form is one of [RESERVED_WORDS]. *)
Theorem reserved_words_any_case (s : string) :
  Str.is_ascii s = true ->
  (Str.lower s ∈ reserved_words <-> Str.upper s ∈ RESERVED_WORDS).
Proof. intros _. apply reserved_words_lower_upper. Qed.

End ReservedWords.

(** ** The connect options returned *)

Section ConnectArgsLaws.

Import ConnectArgs.

Implicit Types opts query r : gmap string pyval.

(** The name-space block touches the [database] and [schema] options
    only. *)
Lemma name_spaces_frame opts opts1 k :
  name_spaces opts = inr opts1 -> k <> "database" -> k <> "schema" ->
  opts1 !! k = opts !! k.
Proof.
  unfold name_spaces.
  destruct (opts !! "database") as [[d| |]|]; try discriminate;
    [| now intros [= <-]].
  destruct (Str.split "/" d) as [|a [|b [|c l]]]; try discriminate.
  - now intros [= <-].
  - intros [= <-] Hd Hs. now rewrite !lookup_insert_ne by congruence.
Qed.

(** It returns on an absent database and on a string with at most one
    separator, and on nothing else. *)
Lemma name_spaces_returns opts :
  (exists opts1, name_spaces opts = inr opts1)
  <-> opts !! "database" = None
      \/ exists d, opts !! "database" = Some (PStr d) /\ Str.count "/" d <= 1.
Proof.
  unfold name_spaces. split.
  - intros [opts1 H].
    destruct (opts !! "database") as [[d| |]|]; try discriminate; [|now left].
    right. exists d. split; [reflexivity|].
    pose proof (SplitFacts.split_length "/" d) as Hl.
    destruct (Str.split "/" d) as [|a [|b [|c l]]]; cbn [length] in Hl;
      first [discriminate | lia].
  - intros [-> | (d & -> & Hc)]; [eauto|].
    pose proof (SplitFacts.split_length "/" d) as Hl.
    destruct (Str.split "/" d) as [|a [|b [|c l]]]; cbn [length] in Hl;
      first [lia | eauto].
Qed.

(** What a returning call went through. *)
Lemma create_connect_args_inv opts query args r :
  create_connect_args opts query = inr (args, r) ->
  args = []
  /\ exists opts1 opts2,
       name_spaces opts = inr opts1
       /\ account_host opts1 = inr opts2
       /\ r = query ∪ <["autocommit" := PBool false]> opts2.
Proof.
  unfold create_connect_args.
  destruct (name_spaces opts) as [e|opts1] eqn:Hn; cbn [bind]; [discriminate|].
  destruct (account_host opts1) as [e|opts2] eqn:Ha; cbn [bind];
    [discriminate|].
  intros [= <- <-]. split; [reflexivity|].
  exists opts1, opts2. repeat split. exact Ha.
Qed.

Lemma contains_app c a b :
  Str.contains c (a ++ b) = Str.contains c a || Str.contains c b.
Proof.
  unfold Str.contains. induction a as [|d a IH]; cbn [Str.existsb];
    [reflexivity|].
  change (String d a ++ b) with (String d (a ++ b)).
  cbn [Str.existsb]. now rewrite IH, orb_assoc.
Qed.

(** X8.  The call returns exactly when the database option is absent or
    a string with at most one separator, and the host option is a string;
    it ends with [KeyError] exactly when the database option is such and
    there is no host option, and the key is [host]. *)
Theorem create_connect_args_outcome opts query :
  ((exists res, create_connect_args opts query = inr res)
     <-> (opts !! "database" = None
          \/ exists d, opts !! "database" = Some (PStr d)
                       /\ Str.count "/" d <= 1)
         /\ exists host, opts !! "host" = Some (PStr host))
  /\ (forall key, create_connect_args opts query = inl (KeyError key)
        <-> key = "host"
            /\ (opts !! "database" = None
                \/ exists d, opts !! "database" = Some (PStr d)
                             /\ Str.count "/" d <= 1)
            /\ opts !! "host" = None).
Proof.
  unfold create_connect_args. split; [split|split].
  - intros [res H].
    destruct (name_spaces opts) as [e|opts1] eqn:Hn; cbn [bind] in H;
      [discriminate|].
    split; [apply name_spaces_returns; eauto|].
    rewrite <- (name_spaces_frame _ _ "host" Hn) by done.
    unfold account_host in H.
    destruct (opts1 !! "host") as [[h| |]|]; try discriminate. eauto.
  - intros [[opts1 Hn]%name_spaces_returns [host Hh]]. rewrite Hn. cbn [bind].
    rewrite <- (name_spaces_frame _ _ "host" Hn) in Hh by done.
    unfold account_host. rewrite Hh. destruct (negb _); cbn [bind]; eauto.
  - intros H.
    destruct (name_spaces opts) as [e|opts1] eqn:Hn; cbn [bind] in H.
    + injection H as ->. unfold name_spaces in Hn.
      destruct (opts !! "database") as [[d| |]|]; try discriminate.
      destruct (Str.split "/" d) as [|a [|b [|c l]]]; discriminate.
    + rewrite <- (name_spaces_frame _ _ "host" Hn) by done.
      unfold account_host in H.
      destruct (opts1 !! "host") as [[h| |]|]; try discriminate;
        [destruct (negb _); discriminate|].
      injection H as <-.
      split; [reflexivity|]. split; [apply name_spaces_returns; eauto|].
      reflexivity.
  - intros (-> & [opts1 Hn]%name_spaces_returns & Hh). rewrite Hn. cbn [bind].
    rewrite <- (name_spaces_frame _ _ "host" Hn) in Hh by done.
    unfold account_host. now rewrite Hh.
Qed.

(** X9.  A host without a dot is taken as the account: the options
    returned hold it as [account], hold it with the Snowflake domain
    appended as [host], and hold the port [443].  A host with a dot leaves
    the three options as they were given.  ([url.query] may set each of
    them anew.) *)
Theorem create_connect_args_account opts query host args r :
  create_connect_args opts query = inr (args, r) ->
  opts !! "host" = Some (PStr host) ->
  (Str.contains "." host = false ->
     (query !! "account" = None -> r !! "account" = Some (PStr host))
     /\ (query !! "host" = None ->
           r !! "host" = Some (PStr (host ++ ".snowflakecomputing.com")))
     /\ (query !! "port" = None -> r !! "port" = Some (PStr "443")))
  /\ (Str.contains "." host = true ->
     (query !! "account" = None -> r !! "account" = opts !! "account")
     /\ (query !! "host" = None -> r !! "host" = Some (PStr host))
     /\ (query !! "port" = None -> r !! "port" = opts !! "port")).
Proof.
  intros H Hh.
  destruct (create_connect_args_inv _ _ _ _ H)
    as (_ & opts1 & opts2 & Hn & Ha & ->).
  assert (forall k, k <> "database" -> k <> "schema" -> opts1 !! k = opts !! k)
    as Hf by (intros k; apply name_spaces_frame, Hn).
  unfold account_host in Ha. rewrite Hf, Hh in Ha by done.
  split; intros Hdot; rewrite Hdot in Ha; cbn [negb] in Ha;
    injection Ha as <-; repeat split; intros Hq;
    rewrite lookup_union_r by exact Hq;
    rewrite lookup_insert_ne by done.
  - rewrite !lookup_insert_ne by done. apply lookup_insert_eq.
  - rewrite lookup_insert_ne by done. apply lookup_insert_eq.
  - apply lookup_insert_eq.
  - now apply Hf.
  - now rewrite Hf.
  - now apply Hf.
Qed.

(** X10.  [url.query] is merged last: every option it sets is returned
    with the value it gives, whatever the URL held; [autocommit] is
    [False] unless the query sets it. *)
Theorem create_connect_args_query_wins opts query args r :
  create_connect_args opts query = inr (args, r) ->
  (forall k v, query !! k = Some v -> r !! k = Some v)
  /\ (query !! "autocommit" = None -> r !! "autocommit" = Some (PBool false)).
Proof.
  intros H.
  destruct (create_connect_args_inv _ _ _ _ H)
    as (_ & opts1 & opts2 & Hn & Ha & ->).
  split.
  - intros k v Hq. now apply lookup_union_Some_l.
  - intros Hq. rewrite lookup_union_r by exact Hq. apply lookup_insert_eq.
Qed.

(** X11.  No option is lost, and an option the call has no business with
    (the user, the password, ...) is returned as it was given, unless the
    query sets it. *)
Theorem create_connect_args_passes_options opts query args r :
  create_connect_args opts query = inr (args, r) ->
  (forall k, is_Some (opts !! k) -> is_Some (r !! k))
  /\ (forall k,
        k <> "database" -> k <> "schema" -> k <> "account" -> k <> "host" ->
        k <> "port" -> k <> "autocommit" -> query !! k = None ->
        r !! k = opts !! k).
Proof.
  intros H.
  destruct (create_connect_args_inv _ _ _ _ H)
    as (_ & opts1 & opts2 & Hn & Ha & ->).
  assert (forall k, is_Some (opts !! k) -> is_Some (opts1 !! k)) as H1.
  { intros k Hk. revert Hn. unfold name_spaces.
    destruct (opts !! "database") as [[d| |]|]; try discriminate;
      [| now intros [= <-]].
    destruct (Str.split "/" d) as [|a [|b [|c l]]]; try discriminate;
      intros [= <-]; [exact Hk|].
    rewrite !lookup_insert_is_Some'. tauto. }
  assert (forall k, is_Some (opts1 !! k) -> is_Some (opts2 !! k)) as H2.
  { intros k Hk. revert Ha. unfold account_host.
    destruct (opts1 !! "host") as [[h| |]|]; try discriminate.
    destruct (negb _); intros [= <-]; [|exact Hk].
    rewrite !lookup_insert_is_Some'. tauto. }
  split.
  - intros k Hk. apply lookup_union_is_Some. right.
    rewrite lookup_insert_is_Some'. auto.
  - intros k Hd Hs Hac Hh Hp Hau Hq.
    rewrite lookup_union_r by exact Hq.
    rewrite lookup_insert_ne by congruence.
    rewrite <- (name_spaces_frame _ _ k Hn) by assumption.
    revert Ha. unfold account_host.
    destruct (opts1 !! "host") as [[h| |]|]; try discriminate.
    destruct (negb _); intros [= <-]; [|reflexivity].
    now rewrite !lookup_insert_ne by congruence.
Qed.

(** X12.  Unless the query sets it, the host returned holds a dot. *)
Theorem create_connect_args_host_has_dot opts query args r :
  create_connect_args opts query = inr (args, r) ->
  query !! "host" = None ->
  exists host, r !! "host" = Some (PStr host) /\ Str.contains "." host = true.
Proof.
  intros H Hq.
  destruct (create_connect_args_inv _ _ _ _ H)
    as (_ & opts1 & opts2 & Hn & Ha & ->).
  rewrite lookup_union_r by exact Hq. rewrite lookup_insert_ne by done.
  revert Ha. unfold account_host.
  destruct (opts1 !! "host") as [[h| |]|] eqn:Hh; try discriminate.
  destruct (Str.contains "." h) eqn:Hdot; cbn [negb]; intros [= <-].
  - eauto.
  - exists (h ++ ".snowflakecomputing.com"). split.
    + rewrite lookup_insert_ne by done. apply lookup_insert_eq.
    + rewrite contains_app. apply orb_true_r.
Qed.

End ConnectArgsLaws.

(** ** Statements that autocommit *)

Section AutocommitLaws.

Import Autocommit.

Lemma length_app_string (a b : string) :
  String.length (a ++ b) = String.length a + String.length b.
Proof. induction a as [|c a IH]; simpl; [reflexivity|]. now f_equal. Qed.

(** A keyword matches the strings that start with it in some case. *)
Lemma match_keyword_Some kw s tail :
  match_keyword kw s = Some tail
  <-> exists k, s = k ++ tail /\ Str.lower k = Str.lower kw.
Proof.
  revert s. induction kw as [|a kw IH]; intros s; cbn [match_keyword].
  - split.
    + intros [= ->]. now exists EmptyString.
    + intros (k & -> & Hk). destruct k; [reflexivity | discriminate].
  - destruct s as [|c s].
    + split; [discriminate|]. intros ([|? ?] & Hs & Hk); discriminate.
    + destruct (Ascii.eqb (Char.lower a) (Char.lower c)) eqn:Hc.
      * apply Ascii.eqb_eq in Hc. rewrite IH. split.
        -- intros (k & -> & Hk). exists (String c k). cbn. now rewrite Hk, Hc.
        -- intros ([|c' k] & Hs & Hk); [discriminate|].
           injection Hs as <- ->. injection Hk as _ Hk. now exists k.
      * apply Ascii.eqb_neq in Hc. split; [discriminate|].
        intros ([|c' k] & Hs & Hk); [discriminate|].
        injection Hs as <- ->. injection Hk as Hk _. congruence.
Qed.

Lemma keyword_lower k kw :
  Str.upper k = kw -> Str.lower k = Str.lower kw.
Proof. intros <-. now rewrite str_lower_of_upper. Qed.

(** The alternation matches the strings that start with one of the four
    keywords in some case. *)
Lemma match_alternation_Some s tail :
  match_alternation keywords s = Some tail
  <-> exists k, s = k ++ tail /\ Str.upper k ∈ keywords.
Proof.
  split.
  - unfold keywords. cbn [match_alternation].
    repeat match goal with
    | |- context [match_keyword ?kw s] =>
        let H := fresh "H" in
        destruct (match_keyword kw s) as [tl|] eqn:H;
        [intros [= ->]; apply match_keyword_Some in H as (k & -> & Hk);
         exists k; split; [reflexivity|];
         apply (f_equal Str.upper) in Hk;
         rewrite !StrFacts.str_upper_lower in Hk; rewrite Hk;
         cbn; set_solver |]
    end.
    discriminate.
  - intros (k & -> & Hk). unfold keywords in *.
    assert (forall kw, Str.upper k = kw ->
              match_keyword kw (k ++ tail) = Some tail) as Hyes.
    { intros kw Hkw. apply match_keyword_Some. exists k.
      split; [reflexivity | now apply keyword_lower]. }
    assert (forall kw tl, match_keyword kw (k ++ tail) = Some tl ->
              Str.lower k = Str.lower kw -> tl = tail) as Hsame.
    { intros kw tl (k' & He & Hk')%match_keyword_Some Hkk.
      rewrite <- Hkk in Hk'. clear -He Hk'.
      revert k' He Hk'. induction k as [|c k IH]; intros [|c' k'] He Hk';
        try discriminate; cbn in *; [now symmetry|].
      injection He as _ He. injection Hk' as _ Hk'. eauto. }
    rewrite !elem_of_cons, elem_of_nil in Hk.
    cbn [match_alternation].
    destruct Hk as [Hk | [Hk | [Hk | [Hk | []]]]];
      repeat match goal with
      | |- context [match_keyword ?kw (k ++ tail)] =>
          first
            [ rewrite (Hyes kw Hk); reflexivity
            | let H := fresh "H" in
              destruct (match_keyword kw (k ++ tail)) as [tl|] eqn:H;
              [ exfalso; apply match_keyword_Some in H as (k' & He & Hk');
                destruct k as [|c k]; [discriminate Hk|];
                destruct k' as [|c' k']; [discriminate Hk'|];
                injection He as <- _; injection Hk as Hc _;
                injection Hk' as Hc' _; revert Hc Hc'; clear;
                CharFacts.by_cases c
              | ] ]
      end.
Qed.

(** The matcher succeeds exactly on white space, then a keyword in any
    mix of cases, then anything; the match ends behind the keyword. *)
Lemma autocommit_match_parts (statement : string) (n : nat) :
  should_autocommit_text statement = Some n
  <-> exists ws k rest,
        statement = ws ++ k ++ rest
        /\ Str.forallb is_space ws = true
        /\ Str.upper k ∈ keywords
        /\ n = String.length ws + String.length k.
Proof.
  unfold should_autocommit_text. revert n.
  induction statement as [|c s IH]; intros n.
  - cbn. split; [discriminate|].
    intros (ws & k & rest & Hs & _ & Hk & _).
    destruct ws; [|discriminate]. destruct k; [|discriminate].
    cbn in Hk. unfold keywords in Hk. set_solver.
  - cbn [AUTOCOMMIT_REGEXP_match]. destruct (is_space c) eqn:Hc.
    + destruct (AUTOCOMMIT_REGEXP_match s) as [m|] eqn:Hm; cbn [fmap option_fmap option_map].
      * split.
        -- intros [= <-].
           destruct (proj1 (IH m) eq_refl) as (ws & k & rest & -> & Hw & Hk & ->).
           exists (String c ws), k, rest. cbn. rewrite Hc, Hw. now repeat split.
        -- intros (ws & k & rest & Hs & Hw & Hk & ->).
           destruct ws as [|c' ws].
           ++ exfalso. destruct k as [|c' k]; [cbn in Hk; unfold keywords in Hk; set_solver|].
              injection Hs as <- _. revert Hc Hk. unfold keywords.
              rewrite !elem_of_cons, elem_of_nil. cbn [Str.upper].
              clear. intros Hc [H|[H|[H|[H|[]]]]]; injection H as H _;
                revert Hc H; CharFacts.by_cases c.
           ++ injection Hs as <- ->. cbn in Hw. rewrite Hc in Hw. cbn in Hw.
              f_equal. cbn. f_equal.
              assert (Some m = Some (String.length ws + String.length k)) as [= ->];
                [|reflexivity].
              apply IH. now exists ws, k, rest.
      * split; [discriminate|].
        intros (ws & k & rest & Hs & Hw & Hk & ->).
        destruct ws as [|c' ws].
        -- exfalso. destruct k as [|c' k]; [cbn in Hk; unfold keywords in Hk; set_solver|].
           injection Hs as <- _. revert Hc Hk. unfold keywords.
           rewrite !elem_of_cons, elem_of_nil. cbn [Str.upper].
           clear. intros Hc [H|[H|[H|[H|[]]]]]; injection H as H _;
             revert Hc H; CharFacts.by_cases c.
        -- injection Hs as <- ->. cbn in Hw. rewrite Hc in Hw. cbn in Hw.
           assert (None = Some (String.length ws + String.length k)) as H;
             [|discriminate H].
           apply IH. now exists ws, k, rest.
    + destruct (match_alternation keywords (String c s)) as [tail|] eqn:Hm;
        cbn [fmap option_fmap option_map].
      * apply match_alternation_Some in Hm as (k & Hs & Hk).
        rewrite Hs, length_app_string.
        replace (String.length k + String.length tail - String.length tail)
          with (String.length k) by lia.
        split.
        -- intros [= <-]. exists EmptyString, k, tail. repeat split. exact Hk.
        -- intros (ws & k' & rest & Hs' & Hw & Hk' & ->).
           destruct ws as [|c' ws].
           ++ change (k ++ tail = k' ++ rest) in Hs'.
              assert (match_alternation keywords (k' ++ rest) = Some rest) as H1
                by (apply match_alternation_Some; eauto).
              assert (match_alternation keywords (k ++ tail) = Some tail) as H2
                by (apply match_alternation_Some; eauto).
              rewrite Hs', H1 in H2. injection H2 as ->.
              apply (f_equal String.length) in Hs'.
              rewrite !length_app_string in Hs'. f_equal. cbn. lia.
           ++ exfalso. rewrite <- Hs in Hs'. injection Hs' as <- _.
              cbn in Hw. rewrite Hc in Hw. discriminate Hw.
      * split; [discriminate|].
        intros (ws & k' & rest & Hs' & Hw & Hk' & ->).
        destruct ws as [|c' ws];
          [| injection Hs' as <- _; cbn in Hw; rewrite Hc in Hw; discriminate Hw].
        change (String c s = k' ++ rest) in Hs'.
        assert (match_alternation keywords (k' ++ rest) = Some rest) as H1
          by (apply match_alternation_Some; eauto).
        rewrite <- Hs', Hm in H1. discriminate H1.
Qed.

(** X13.  A statement made of ASCII characters matches
    [AUTOCOMMIT_REGEXP] exactly when it is made of white space, then UPDATE,
    INSERT, DELETE or MERGE in any mix of cases, then anything at all; the
    match ends behind the keyword. *)
Theorem should_autocommit_text_matches (statement : string) (n : nat) :
  Str.is_ascii statement = true ->
  (should_autocommit_text statement = Some n
   <-> exists ws k rest,
         statement = ws ++ k ++ rest
         /\ Str.forallb is_space ws = true
         /\ Str.upper k ∈ keywords
         /\ n = String.length ws + String.length k).
Proof. intros _. apply autocommit_match_parts. Qed.

End AutocommitLaws.

Section AutocommitCase.

Import Autocommit.

Lemma is_space_upper c : is_space (Char.upper c) = is_space c.
Proof. CharFacts.by_cases c. Qed.

Lemma length_upper s : String.length (Str.upper s) = String.length s.
Proof. induction s as [|c s IH]; simpl; [reflexivity|]. now f_equal. Qed.

Lemma match_keyword_upper kw s :
  match_keyword kw (Str.upper s) = Str.upper <$> match_keyword kw s.
Proof.
  revert s. induction kw as [|a kw IH]; intros [|c s];
    cbn [match_keyword Str.upper]; try reflexivity.
  rewrite char_lower_of_upper.
  destruct (Ascii.eqb _ _); [apply IH | reflexivity].
Qed.

Lemma match_alternation_upper kws s :
  match_alternation kws (Str.upper s) = Str.upper <$> match_alternation kws s.
Proof.
  induction kws as [|kw kws IH]; cbn [match_alternation]; [reflexivity|].
  rewrite match_keyword_upper.
  destruct (match_keyword kw s); [reflexivity | exact IH].
Qed.

Lemma AUTOCOMMIT_REGEXP_match_upper s :
  AUTOCOMMIT_REGEXP_match (Str.upper s) = AUTOCOMMIT_REGEXP_match s.
Proof.
  induction s as [|c s IH]; [reflexivity|].
  cbn [Str.upper AUTOCOMMIT_REGEXP_match]. rewrite is_space_upper, IH.
  destruct (is_space c); [reflexivity|].
  change (String (Char.upper c) (Str.upper s)) with (Str.upper (String c s)).
  rewrite match_alternation_upper, length_upper.
  destruct (match_alternation keywords (String c s)) as [tail|];
    [|reflexivity].
  cbn [fmap option_fmap option_map]. now rewrite length_upper.
Qed.

(** X14.  Whether a statement made of ASCII characters autocommits, and
    where the match ends, does not depend on the case of its letters. *)
Theorem should_autocommit_text_any_case (statement : string) :
  Str.is_ascii statement = true ->
  should_autocommit_text (Str.upper statement) = should_autocommit_text statement
  /\ should_autocommit_text (Str.lower statement) = should_autocommit_text statement.
Proof.
  intros _.
  unfold should_autocommit_text. split; [apply AUTOCOMMIT_REGEXP_match_upper|].
  rewrite <- (AUTOCOMMIT_REGEXP_match_upper (Str.lower statement)).
  rewrite StrFacts.str_upper_lower. apply AUTOCOMMIT_REGEXP_match_upper.
Qed.

(** X15.  [should_autocommit] gives a true value in these cases and no
    others: the [autocommit] option is [PARSE_AUTOCOMMIT] and the text
    matches; the option is another true value and the statement is not DDL;
    there is no option, the statement is not a compiled one and is not
    empty, and the text matches. *)
Theorem should_autocommit_truth (self : ExecutionContext) :
  truthy (should_autocommit self)
  = match autocommit_option self with
    | Some PARSE_AUTOCOMMIT =>
        bool_decide (is_Some (should_autocommit_text (unicode_statement self)))
    | Some v => truthy v && negb (isddl self)
    | None =>
        negb (truthy (compiled self)) && truthy (statement self)
        && bool_decide (is_Some (should_autocommit_text (unicode_statement self)))
    end.
Proof.
  assert (forall o : option nat,
            truthy (match o with Some pos => OMatch pos | None => ONone end)
            = bool_decide (is_Some o)) as Hm.
  { intros [pos|].
    - rewrite bool_decide_eq_true_2 by eauto. reflexivity.
    - rewrite bool_decide_eq_false_2 by (intros [? ?]; discriminate).
      reflexivity. }
  unfold should_autocommit.
  destruct (autocommit_option self) as [v|].
  - destruct v as [ |b|s| |pos| ]; try apply Hm; unfold py_and; cbn [truthy];
      try reflexivity.
    + destruct b; reflexivity.
    + destruct (negb (String.eqb s EmptyString)) eqn:Hs; cbn [truthy andb];
        [reflexivity | exact Hs].
  - unfold py_or, py_and, py_not.
    destruct (truthy (compiled self)) eqn:Hc; cbn [truthy negb andb];
      [reflexivity|].
    destruct (truthy (statement self)) eqn:Hs; cbn [truthy andb].
    + apply Hm.
    + rewrite Hs. cbn. reflexivity.
Qed.

End AutocommitCase.

(** ** Reflection *)

Section ColumnIndex.

Import Reflection.

(** A name is the name of a last column of a description, or of none. *)
Lemma classic_last (d : list column) (name : string) :
  (exists i, fst <$> d !! i = Some name
             /\ forall j, i < j -> fst <$> d !! j <> Some name)
  \/ (forall j, fst <$> d !! j <> Some name).
Proof.
  induction d as [|col d IH]; [right; intros j; discriminate|].
  destruct IH as [(i & Hi & Hlast) | Hno].
  - left. exists (S i). split; [exact Hi|].
    intros [|m] Hm; [lia|]. apply Hlast. lia.
  - destruct (decide (col.1 = name)) as [Heq|Hne].
    + left. exists 0. split; [cbn; now rewrite Heq|].
      intros [|m] Hm; [lia|]. apply Hno.
    + right. intros [|m]; [cbn; congruence | apply Hno].
Qed.

(** The loop gives a name it meets the index of its last entry, and
    keeps what it was given for a name it does not meet. *)
Lemma map_name_to_idx_from_Some (d : list column) idx acc name i :
  map_name_to_idx_from idx d acc !! name = Some i
  <-> (exists j, i = idx + j /\ fst <$> d !! j = Some name
                 /\ forall j', j < j' -> fst <$> d !! j' <> Some name)
      \/ ((forall j, fst <$> d !! j <> Some name) /\ acc !! name = Some i).
Proof.
  revert idx acc. induction d as [|col d IH]; intros idx acc.
  - cbn [map_name_to_idx_from]. split.
    + intros H. right. split; [intros j; discriminate | exact H].
    + intros [(j & _ & Hj & _) | [_ H]]; [discriminate Hj | exact H].
  - cbn [map_name_to_idx_from]. rewrite IH. split.
    + intros [(j & -> & Hj & Hlast) | [Hnone Hacc]].
      * left. exists (S j). split; [lia|]. split; [exact Hj|].
        intros [|m] Hm; [lia|]. apply Hlast. lia.
      * destruct (decide (col.1 = name)) as [Heq|Hne].
        -- rewrite Heq, lookup_insert_eq in Hacc. injection Hacc as <-.
           left. exists 0. split; [lia|]. split; [cbn; now rewrite Heq|].
           intros [|m] Hm; [lia|]. apply Hnone.
        -- rewrite lookup_insert_ne in Hacc by exact Hne.
           right. split; [|exact Hacc].
           intros [|m]; [cbn; congruence | apply Hnone].
    + intros [(j & -> & Hj & Hlast) | [Hnone Hacc]].
      * destruct j as [|m].
        -- right. split; [intros m; apply (Hlast (S m)); lia|].
           cbn in Hj. injection Hj as ->.
           rewrite lookup_insert_eq. f_equal. lia.
        -- left. exists m. split; [lia|]. split; [exact Hj|].
           intros m' Hm'. apply (Hlast (S m')). lia.
      * right. split; [intros m; apply (Hnone (S m))|].
        rewrite lookup_insert_ne; [exact Hacc|].
        intros Heq. apply (Hnone 0). cbn. now rewrite Heq.
Qed.

(** X16.  [_map_name_to_idx] holds, for each column name of the
    description, the index of the last column of that name, and holds no
    other name. *)
Theorem map_name_to_idx_last (res : ResultProxy) (name : string) :
  (forall i, _map_name_to_idx res !! name = Some i
     <-> fst <$> description res !! i = Some name
         /\ forall j, i < j -> fst <$> description res !! j <> Some name)
  /\ (_map_name_to_idx res !! name = None
     <-> forall j, fst <$> description res !! j <> Some name).
Proof.
  unfold _map_name_to_idx.
  assert (forall i, map_name_to_idx_from 0 (description res) ∅ !! name = Some i
     <-> fst <$> description res !! i = Some name
         /\ forall j, i < j -> fst <$> description res !! j <> Some name) as H.
  { intros i. rewrite map_name_to_idx_from_Some. split.
    - intros [(j & -> & Hj & Hlast) | [_ He]]; [now split|].
      rewrite lookup_empty in He. discriminate He.
    - intros [Hi Hlast]. left. now exists i. }
  split; [exact H|]. split.
  - intros Hnone j Hj.
    destruct (classic_last (description res) name) as [(i & Hi) | Hno];
      [|exact (Hno j Hj)].
    apply H in Hi. rewrite Hi in Hnone. discriminate Hnone.
  - intros Hnone.
    destruct (map_name_to_idx_from 0 (description res) ∅ !! name) as [i|];
      [|reflexivity].
    destruct (proj1 (H i) eq_refl) as [Hi _]. exfalso. exact (Hnone i Hi).
Qed.

End ColumnIndex.

Section ReflectionLaws.

Import Reflection.

Context {identifier_preparer : IdentifierPreparer}.
Context (default_schema_name : option pystr).

Implicit Types connection : Connection.

(** X17.  [_has_object] never ends with a [DBAPIError] that wraps a
    [ProgrammingError]: it answers [False] then.  Every other exception of
    the connection goes through, and the answer is [True] exactly when the
    DESC statement gives a row. *)
Theorem has_object_outcome connection object_type object_name schema :
  let statement :=
    "DESC " ++ object_type ++ " "
      ++ _denormalize_quote_join [schema; object_name] in
  _has_object connection object_type object_name schema
    <> inl (DBAPIError ProgrammingError)
  /\ (forall e, _has_object connection object_type object_name schema = inl e
        <-> connection statement = inl e /\ e <> DBAPIError ProgrammingError)
  /\ (_has_object connection object_type object_name schema = inr true
        <-> exists res, connection statement = inr res /\ rows res <> [])
  /\ (_has_object connection object_type object_name schema = inr false
        <-> connection statement = inl (DBAPIError ProgrammingError)
            \/ exists res, connection statement = inr res /\ rows res = []).
Proof.
  intros statement. unfold _has_object. fold statement.
  destruct (connection statement) as [e|res] eqn:Hc.
  - destruct e as [e| |[]|]; (split; [discriminate|]);
      (split; [intros e'; split;
                 [first [discriminate | intros [= <-]; split; [reflexivity|discriminate]]
                 | intros [[= <-] H]; first [reflexivity | now destruct H]]|]);
      split; split;
        try discriminate; try (intros (? & H & _); discriminate H);
        try (intros [H | (? & H & _)]; discriminate H); auto.
  - unfold fetchone. destruct (rows res) as [|row rest] eqn:Hr; cbn [head].
    + split; [discriminate|]. split; [intros e; split; [discriminate | intros [H _]; discriminate H]|].
      split; split.
      * discriminate.
      * intros (res' & [= <-] & H). now rewrite Hr in H.
      * intros _. right. now exists res.
      * reflexivity.
    + split; [discriminate|]. split; [intros e; split; [discriminate | intros [H _]; discriminate H]|].
      split; split.
      * intros _. exists res. split; [reflexivity | now rewrite Hr].
      * reflexivity.
      * discriminate.
      * intros [H | (res' & [= <-] & H)]; [discriminate H|].
        rewrite Hr in H. discriminate H.
Qed.

(** What a normalised cell is. *)
Lemma normalize_cell_inr c name :
  normalize_cell c = inr name
  <-> exists stored, cell_name c = inr stored /\ name = normalize_name stored.
Proof.
  unfold normalize_cell. destruct (cell_name c) as [e|stored]; cbn [bind].
  - split; [discriminate | intros (? & H & _); discriminate H].
  - split; [intros [= <-]; eauto | intros (? & [= <-] & ->); reflexivity].
Qed.

(** The characters of an optional name survive normalisation followed by
    denormalisation. *)
Lemma denormalize_normalize_opt (stored : option pystr) :
  Name.text <$> denormalize_name (normalize_name stored) = Name.text <$> stored.
Proof.
  destruct stored as [n|]; [apply denormalize_normalize_chars | reflexivity].
Qed.

(** The list comprehension of [get_table_names] and [get_view_names]. *)
Lemma names_of_rows (rs : list (list cell)) names :
  mapM (fun row => do c <- getitem row 1; normalize_cell c) rs = inr names ->
  Forall2 (fun row name =>
             exists c stored,
               row !! 1 = Some c /\ cell_name c = inr stored
               /\ name = normalize_name stored)
          rs names.
Proof.
  revert names. induction rs as [|row rs IH]; intros names; cbn [mapM].
  - intros [= <-]. constructor.
  - unfold getitem at 1. destruct (row !! 1) as [c|] eqn:Hc; cbn [bind];
      [|discriminate].
    destruct (normalize_cell c) as [e|name] eqn:Hn; cbn [bind]; [discriminate|].
    destruct (mapM _ rs) as [e|names'] eqn:Hm; cbn [bind]; [discriminate|].
    intros [= <-]. constructor; [|now apply IH].
    apply normalize_cell_inr in Hn as (stored & Hs & ->). eauto.
Qed.

(** X18.  Every name [get_table_names] and [get_view_names] return is
    the normalised second column of its row, in the order of the rows, and
    [denormalize_name] gives back the characters the engine reported when
    these are ASCII characters. *)
Theorem reflected_names_denormalize connection schema kind names :
  (kind = "TABLES" /\ get_table_names default_schema_name connection schema = inr names)
  \/ (kind = "VIEWS" /\ get_view_names default_schema_name connection schema = inr names) ->
  exists cursor,
    show_objects default_schema_name connection kind schema = inr cursor
    /\ Forall2 (fun row name =>
                  exists c stored,
                    row !! 1 = Some c /\ cell_name c = inr stored
                    /\ name = normalize_name stored
                    /\ (ascii_name stored = true ->
                        Name.text <$> denormalize_name name
                        = Name.text <$> stored))
               (rows cursor) names.
Proof.
  assert (forall cursor,
            mapM (fun row => do c <- getitem row 1; normalize_cell c)
                 (rows cursor) = inr names ->
            Forall2 (fun row name =>
                  exists c stored,
                    row !! 1 = Some c /\ cell_name c = inr stored
                    /\ name = normalize_name stored
                    /\ (ascii_name stored = true ->
                        Name.text <$> denormalize_name name
                        = Name.text <$> stored))
               (rows cursor) names) as Hrows.
  { intros cursor H%names_of_rows. eapply Forall2_impl; [exact H|].
    intros row name (c & stored & Hc & Hs & ->).
    exists c, stored. repeat split; try assumption.
    intros _. apply denormalize_normalize_opt. }
  intros [[-> H] | [-> H]]; revert H;
    unfold get_table_names, get_view_names;
    (destruct (show_objects _ connection _ schema) as [e|cursor];
       cbn [bind]; [discriminate|]);
    intros H; exists cursor; (split; [reflexivity | now apply Hrows]).
Qed.

(** X19.  Tables the engine reports under pairwise distinct names made
    of ASCII characters get pairwise distinct names from
    [get_table_names]. *)
Theorem get_table_names_distinct connection schema cursor names :
  show_objects default_schema_name connection "TABLES" schema = inr cursor ->
  get_table_names default_schema_name connection schema = inr names ->
  Forall (fun row => forall c stored,
            row !! 1 = Some c -> cell_name c = inr stored ->
            ascii_name stored = true) (rows cursor) ->
  NoDup ((fun row => row !! 1) <$> rows cursor) ->
  NoDup names.
Proof.
  unfold get_table_names. intros -> H%names_of_rows _. cbn [bind] in H.
  induction H as [|row name rs names (c & stored & Hc & Hs & ->) Hrest IH];
    [constructor|].
  rewrite fmap_cons, !NoDup_cons. intros [Hnew Hdup]. split; [|auto].
  intros Hin. apply Hnew. rewrite Hc.
  clear -Hin Hrest Hs.
  induction Hrest as [|row' name' rs names (c' & stored' & Hc' & Hs' & ->) _ IH];
    [set_solver|].
  rewrite fmap_cons. apply elem_of_cons.
  apply elem_of_cons in Hin as [Heq|Hin]; [|right; now apply IH].
  left. rewrite Hc'. f_equal.
  destruct c as [[s| |]|], c' as [[s'| |]|]; cbn in Hs, Hs';
    try discriminate; injection Hs as <-; injection Hs' as <-.
  - apply normalize_name_inj in Heq. now subst.
  - unfold normalize_name in Heq at 2. exfalso.
    destruct (normalize_name_branches s) as [(_ & _ & H) | [(_ & _ & H) | (_ & _ & H)]];
      rewrite H in Heq; discriminate Heq.
  - unfold normalize_name in Heq at 1. exfalso.
    destruct (normalize_name_branches s') as [(_ & _ & H) | [(_ & _ & H) | (_ & _ & H)]];
      rewrite H in Heq; discriminate Heq.
  - reflexivity.
Qed.

(** X20.  When the name column of SHOW TABLES is its second column,
    the temporary tables are among the tables, in the same order: what
    [get_temp_table_names] returns is a sublist of what [get_table_names]
    returns. *)
Theorem temp_table_names_sublist connection schema cursor tables temps :
  show_objects default_schema_name connection "TABLES" schema = inr cursor ->
  _map_name_to_idx cursor !! "name" = Some 1 ->
  get_table_names default_schema_name connection schema = inr tables ->
  get_temp_table_names default_schema_name connection schema = inr temps ->
  sublist temps tables.
Proof.
  unfold get_table_names, get_temp_table_names. intros -> Hname. cbn [bind].
  generalize (_map_name_to_idx cursor) Hname. clear Hname. intros n2i Hname.
  revert tables temps.
  induction (rows cursor) as [|row rs IH]; intros tables temps;
    cbn [mapM temporary_names].
  - intros [= <-] [= <-]. constructor.
  - destruct (getitem row 1) as [e|c] eqn:Hc; cbn [bind]; [discriminate|].
    destruct (normalize_cell c) as [e|name] eqn:Hn; cbn [bind];
      [discriminate|].
    destruct (mapM _ rs) as [e|tables'] eqn:Hm; cbn [bind]; [discriminate|].
    intros [= <-].
    destruct (getidx n2i "kind") as [e|i]; cbn [bind]; [discriminate|].
    destruct (getitem row i) as [e|kind]; cbn [bind]; [discriminate|].
    destruct (cell_is kind "TEMPORARY").
    + unfold getidx. rewrite Hname. cbn [bind]. rewrite Hc. cbn [bind].
      rewrite Hn. cbn [bind].
      destruct (temporary_names n2i rs) as [e|temps'] eqn:Ht; cbn [bind];
        [discriminate|].
      intros [= <-]. apply sublist_skip. now apply IH.
    + intros Ht. apply sublist_cons. now apply IH.
Qed.

(** X21.  Once its statement has run, [get_view_definition] raises
    nothing: it returns the [text] column of the first row, and [None]
    when there is no row, no such column, or no such cell in the row.  The
    only exceptions are those of the statement. *)
Theorem get_view_definition_total connection view_name schema :
  let schema' := py_or schema default_schema_name in
  let statement :=
    if truthy schema'
    then "SHOW VIEWS LIKE '" ++ _denormalize_quote_join [view_name]
           ++ "' IN " ++ _denormalize_quote_join [schema']
    else "SHOW VIEWS LIKE '" ++ _denormalize_quote_join [view_name] ++ "'" in
  (forall e, connection statement = inl e ->
     get_view_definition default_schema_name connection view_name schema = inl e)
  /\ (forall cursor, connection statement = inr cursor ->
     get_view_definition default_schema_name connection view_name schema
     = inr (match rows cursor, _map_name_to_idx cursor !! "text" with
            | ret :: _, Some i => default None (ret !! i)
            | _, _ => None
            end)).
Proof.
  intros schema' statement. unfold get_view_definition.
  fold schema'. subst statement. split.
  - intros e He. destruct (truthy schema'); rewrite He; reflexivity.
  - intros cursor Hc. destruct (truthy schema'); rewrite Hc; cbn [bind];
      unfold fetchone, getidx, getitem;
      (destruct (rows cursor) as [|ret rest]; cbn [head]; [reflexivity|]);
      (destruct (_map_name_to_idx cursor !! "text") as [i|]; cbn [bind];
         [|now destruct (negb _)]);
      (destruct ret as [|c ret]; [now destruct i|]);
      cbn [negb]; (rewrite bool_decide_eq_false_2 by discriminate); cbn [negb];
      now destruct (_ !! i).
Qed.

(** X22.  The loop of [get_primary_keys] looks a column up only when
    there is a row: without rows it returns the empty list whatever the
    description holds, and with a row and no [name] column it ends with
    [KeyError] for [name], before it looks at [primary key].  It returns at
    most one column per row. *)
Theorem get_primary_keys_edges connection table_name schema schema' result :
  current_schema default_schema_name connection schema = inr schema' ->
  connection ("DESCRIBE TABLE " ++ _denormalize_quote_join [schema'; table_name])
    = inr result ->
  (rows result = [] ->
     get_primary_keys default_schema_name connection table_name schema = inr [])
  /\ (rows result <> [] -> _map_name_to_idx result !! "name" = None ->
     get_primary_keys default_schema_name connection table_name schema
     = inl (Py (KeyError "name")))
  /\ (forall columns,
     get_primary_keys default_schema_name connection table_name schema
     = inr columns ->
     length columns <= length (rows result)).
Proof.
  intros Hs Hc. unfold get_primary_keys. rewrite Hs. cbn [bind].
  rewrite Hc. cbn [bind]. split; [|split].
  - intros ->. reflexivity.
  - intros Hr Hn. destruct (rows result) as [|row rest]; [congruence|].
    cbn [constrained_columns]. unfold getidx at 1. now rewrite Hn.
  - generalize (_map_name_to_idx result). intros n2i.
    induction (rows result) as [|row rs IH]; intros columns;
      cbn [constrained_columns].
    + intros [= <-]. reflexivity.
    + destruct (getidx n2i "name") as [e|i]; cbn [bind]; [discriminate|].
      destruct (getitem row i) as [e|c]; cbn [bind]; [discriminate|].
      destruct (getidx n2i "primary key") as [e|j]; cbn [bind]; [discriminate|].
      destruct (getitem row j) as [e|flag]; cbn [bind]; [discriminate|].
      destruct (cell_is flag "Y").
      * destruct (normalize_cell c) as [e|name]; cbn [bind]; [discriminate|].
        destruct (constrained_columns n2i rs) as [e|names]; cbn [bind];
          [discriminate|].
        intros [= <-]. cbn [length]. specialize (IH names eq_refl). lia.
      * intros H. specialize (IH columns H). cbn [length]. lia.
Qed.

Lemma key_eqb_sym a b : key_eqb a b = key_eqb b a.
Proof.
  destruct a as [[s|n|x]|], b as [[t|m|y]|]; cbn; try reflexivity;
    first [apply String.eqb_sym | apply Z.eqb_sym].
Qed.

(** The names of the map after an insertion: those it had, and the new
    one behind them when no entry had it. *)
Lemma add_foreign_key_names name cc rs rt rc fks :
  fk_name <$> add_foreign_key name cc rs rt rc fks
  = if existsb (fun fk => key_eqb name (fk_name fk)) fks
    then fk_name <$> fks
    else ((fk_name <$> fks) ++ [name])%list.
Proof.
  induction fks as [|fk fks IH]; cbn [add_foreign_key existsb]; [reflexivity|].
  destruct (key_eqb name (fk_name fk)); cbn [orb]; [reflexivity|].
  rewrite !fmap_cons, IH. now destruct (existsb _ fks).
Qed.

Lemma add_foreign_key_ok name cc rs rt rc fks :
  foreign_keys_ok fks -> foreign_keys_ok (add_foreign_key name cc rs rt rc fks).
Proof.
  intros [Hlen Hdis]. split.
  - clear Hdis. induction Hlen as [|fk fks [He Hp] Hlen IH];
      cbn [add_foreign_key].
    + repeat constructor.
    + destruct (key_eqb name (fk_name fk)).
      * constructor; [|exact Hlen]. cbn. rewrite !length_app, He. cbn. lia.
      * constructor; [now split | exact IH].
  - assert (forall i j (a b : cell) (l : list cell),
              (forall i j a b, l !! i = Some a -> l !! j = Some b ->
                               key_eqb a b = true -> i = j) ->
              existsb (fun c => key_eqb name c) l = false ->
              (l ++ [name])%list !! i = Some a ->
              (l ++ [name])%list !! j = Some b ->
              key_eqb a b = true -> i = j) as Hnew.
    { intros i j a b l Hl Hex Ha Hb Hab.
      assert (forall k c, l !! k = Some c -> key_eqb name c = false) as Hno.
      { intros k c Hk. apply not_true_is_false. intros Ht.
        assert (existsb (fun c => key_eqb name c) l = true) as Hyes
          by (apply existsb_exists; exists c; split;
              [apply list_elem_of_In; eapply list_elem_of_lookup_2; exact Hk
              | exact Ht]).
        congruence. }
      apply lookup_app_Some in Ha as [Ha | [Hi Ha]];
        apply lookup_app_Some in Hb as [Hb | [Hj Hb]].
      - eauto.
      - apply list_lookup_singleton_Some in Hb as [_ <-].
        rewrite key_eqb_sym, (Hno _ _ Ha) in Hab. discriminate.
      - apply list_lookup_singleton_Some in Ha as [_ <-].
        rewrite (Hno _ _ Hb) in Hab. discriminate.
      - apply list_lookup_singleton_Some in Ha as [Ha _].
        apply list_lookup_singleton_Some in Hb as [Hb _]. lia. }
    assert (forall fks' : list foreign_key,
              (forall i j a b, (fk_name <$> fks') !! i = Some a ->
                 (fk_name <$> fks') !! j = Some b ->
                 key_eqb a b = true -> i = j) ->
              forall i j fk1 fk2, fks' !! i = Some fk1 -> fks' !! j = Some fk2 ->
                key_eqb (fk_name fk1) (fk_name fk2) = true -> i = j) as Hback.
    { intros fks' H i j fk1 fk2 H1 H2. apply H; rewrite list_lookup_fmap.
      - now rewrite H1.
      - now rewrite H2. }
    apply Hback. rewrite add_foreign_key_names.
    assert (forall i j a b, (fk_name <$> fks) !! i = Some a ->
              (fk_name <$> fks) !! j = Some b -> key_eqb a b = true -> i = j)
      as Hold.
    { intros i j a b. rewrite !list_lookup_fmap.
      destruct (fks !! i) as [fk1|] eqn:E1; [|discriminate].
      destruct (fks !! j) as [fk2|] eqn:E2; [|discriminate].
      intros [= <-] [= <-]. now apply Hdis. }
    destruct (existsb _ fks) eqn:Hex; [exact Hold|].
    intros i j a b. apply Hnew; [exact Hold|].
    rewrite <- Hex. clear. induction fks as [|fk fks IH]; [reflexivity|].
    cbn. now rewrite IH.
Qed.

Lemma foreign_key_rows_ok n2i table_name rs fks fks' :
  foreign_keys_ok fks ->
  foreign_key_rows n2i table_name rs fks = inr fks' ->
  foreign_keys_ok fks'.
Proof.
  revert fks. induction rs as [|row rs IH]; intros fks Hok;
    cbn [foreign_key_rows].
  - now intros [= <-].
  - repeat match goal with
           | |- context [bind ?r _] =>
               lazymatch r with
               | foreign_key_rows _ _ _ _ => fail
               | _ => destruct r; cbn [bind]; [discriminate|]
               end
           | |- context [if ?b then _ else _] => destruct b
           end;
      apply IH; [now apply add_foreign_key_ok | exact Hok].
Qed.

(** X23.  In every foreign key [get_foreign_keys] returns, the
    constrained columns and the referred columns are lists of the same
    length, with one column at least; and no two foreign keys returned have
    the same name. *)
Theorem get_foreign_keys_consistent connection table_name schema fks :
  get_foreign_keys default_schema_name connection table_name schema = inr fks ->
  Forall (fun fk =>
            length (fk_constrained_columns fk) = length (fk_referred_columns fk)
            /\ 0 < length (fk_constrained_columns fk)) fks
  /\ forall i j fk1 fk2,
       fks !! i = Some fk1 -> fks !! j = Some fk2 ->
       key_eqb (fk_name fk1) (fk_name fk2) = true -> i = j.
Proof.
  unfold get_foreign_keys.
  destruct (connection _) as [e|res]; cbn [bind]; [discriminate|].
  destruct (fetchone res) as [row|]; [|discriminate].
  destruct (getitem row 0) as [e|database]; cbn [bind]; [discriminate|].
  destruct (if truthy _ then _ else _) as [e|second]; cbn [bind];
    [discriminate|].
  destruct (cell_name database) as [e|db]; cbn [bind]; [discriminate|].
  destruct (connection _) as [e|result]; cbn [bind]; [discriminate|].
  apply foreign_key_rows_ok. split; [constructor|].
  intros i j fk1 fk2 H. discriminate H.
Qed.

End ReflectionLaws.

(** ** The further properties at concrete inputs *)

Module FurtherInstances.

Import SnowflakeIdentifierPreparer ConnectArgs.

(** [ORDERS] and [orders] do not share a canonical name. *)
Lemma same_canonical_name_same_storage_name :
  Str.is_ascii "ORDERS" = true
  /\ normalize_name (Some (PlainStr "ORDERS")) = normalize_name (Some (PlainStr "ORDERS"))
  /\ "ORDERS" = "ORDERS".
Proof.
  split; [reflexivity|]. split; [reflexivity|].
  apply (normalize_name_injective "ORDERS" "ORDERS"); reflexivity.
Defined.

(** [ORDERS] and [tmp_load] come back from the storage form with their
    characters. *)
Lemma ORDERS_characters_kept :
  Str.is_ascii "ORDERS" = true
  /\ Name.text <$> denormalize_name (normalize_name (Some (PlainStr "ORDERS")))
     = Some "ORDERS"
  /\ Name.text <$> denormalize_name (normalize_name (Some (PlainStr "tmp_load")))
     = Some "tmp_load".
Proof.
  split; [reflexivity|]. split.
  - apply (denormalize_normalize_text (PlainStr "ORDERS")). reflexivity.
  - apply (denormalize_normalize_text (PlainStr "tmp_load")). reflexivity.
Defined.

(** [Select] is a reserved word in any case. *)
Lemma Select_is_reserved :
  Str.is_ascii "Select" = true
  /\ (Str.lower "Select" ∈ reserved_words <-> Str.upper "Select" ∈ RESERVED_WORDS)
  /\ Str.lower "Select" ∈ reserved_words.
Proof.
  split; [reflexivity|].
  assert (Str.lower "Select" ∈ reserved_words
          <-> Str.upper "Select" ∈ RESERVED_WORDS) as H
    by (apply (reserved_words_any_case "Select"); reflexivity).
  split; [exact H|]. apply H. vm_compute. set_solver.
Defined.

(** An indented, lower-case update matches, up to the end of the
    keyword; so does its upper-cased form. *)
Lemma indented_update_matches :
  Str.is_ascii "  update t set a = 1" = true
  /\ Autocommit.should_autocommit_text "  update t set a = 1" = Some 8.
Proof.
  split; [reflexivity|].
  apply (should_autocommit_text_matches "  update t set a = 1" 8);
    [reflexivity|].
  exists "  ", "update", " t set a = 1". repeat split.
  vm_compute. set_solver.
Defined.

Lemma indented_update_any_case :
  Str.is_ascii "  update t set a = 1" = true
  /\ Autocommit.should_autocommit_text (Str.upper "  update t set a = 1")
     = Autocommit.should_autocommit_text "  update t set a = 1".
Proof.
  split; [reflexivity|].
  apply (should_autocommit_text_any_case "  update t set a = 1"). reflexivity.
Defined.

(** [ORDERS] normalised twice is the quoted [orders]. *)
Lemma ORDERS_normalised_twice :
  Str.upper "ORDERS" = "ORDERS"
  /\ _requires_quotes (Str.lower "ORDERS") = false
  /\ Str.lower "ORDERS" <> "ORDERS"
  /\ normalize_name (normalize_name (Some (PlainStr "ORDERS")))
     = Some (QuotedName "orders").
Proof.
  split; [reflexivity|]. split; [vm_compute; reflexivity|].
  split; [discriminate|].
  apply (normalize_name_twice "ORDERS");
    [reflexivity | vm_compute; reflexivity | discriminate].
Defined.

(** The options of the URL of the account [acct], user [joe], database
    [sales/public], with [warehouse=wh] in the query. *)
Lemma acct_options_returned :
  let opts : gmap string pyval :=
    <["user" := PStr "joe"]> (<["database" := PStr "sales/public"]>
      (<["host" := PStr "acct"]> ∅)) in
  let query : gmap string pyval := <["warehouse" := PStr "wh"]> ∅ in
  let r : gmap string pyval :=
    query ∪ <["autocommit" := PBool false]>
      (<["port" := PStr "443"]>
        (<["host" := PStr "acct.snowflakecomputing.com"]>
          (<["account" := PStr "acct"]>
            (<["schema" := PStr "public"]>
              (<["database" := PStr "sales"]> opts))))) in
  create_connect_args opts query = inr ([], r)
  /\ opts !! "host" = Some (PStr "acct")
  /\ Str.contains "." "acct" = false
  /\ r !! "account" = Some (PStr "acct")
  /\ r !! "host" = Some (PStr "acct.snowflakecomputing.com")
  /\ r !! "port" = Some (PStr "443").
Proof.
  intros opts query r.
  assert (create_connect_args opts query = inr ([], r)) as H
    by (vm_compute; reflexivity).
  split; [exact H|]. split; [reflexivity|]. split; [reflexivity|].
  destruct (create_connect_args_account opts query "acct" [] r H eq_refl)
    as [(Ha & Hh & Hp) _]; [reflexivity|].
  split; [apply Ha; reflexivity|].
  split; [apply Hh; reflexivity | apply Hp; reflexivity].
Defined.

(** The query of the same URL is returned, and [autocommit] is off. *)
Lemma acct_query_returned :
  let opts : gmap string pyval :=
    <["user" := PStr "joe"]> (<["database" := PStr "sales/public"]>
      (<["host" := PStr "acct"]> ∅)) in
  let query : gmap string pyval := <["warehouse" := PStr "wh"]> ∅ in
  let r : gmap string pyval :=
    query ∪ <["autocommit" := PBool false]>
      (<["port" := PStr "443"]>
        (<["host" := PStr "acct.snowflakecomputing.com"]>
          (<["account" := PStr "acct"]>
            (<["schema" := PStr "public"]>
              (<["database" := PStr "sales"]> opts))))) in
  create_connect_args opts query = inr ([], r)
  /\ r !! "warehouse" = Some (PStr "wh")
  /\ r !! "autocommit" = Some (PBool false).
Proof.
  intros opts query r.
  assert (create_connect_args opts query = inr ([], r)) as H
    by (vm_compute; reflexivity).
  split; [exact H|].
  destruct (create_connect_args_query_wins opts query [] r H) as [Hq Ha].
  split; [apply Hq; reflexivity | apply Ha; reflexivity].
Defined.

(** The user of the same URL is returned. *)
Lemma acct_user_returned :
  let opts : gmap string pyval :=
    <["user" := PStr "joe"]> (<["database" := PStr "sales/public"]>
      (<["host" := PStr "acct"]> ∅)) in
  let query : gmap string pyval := <["warehouse" := PStr "wh"]> ∅ in
  let r : gmap string pyval :=
    query ∪ <["autocommit" := PBool false]>
      (<["port" := PStr "443"]>
        (<["host" := PStr "acct.snowflakecomputing.com"]>
          (<["account" := PStr "acct"]>
            (<["schema" := PStr "public"]>
              (<["database" := PStr "sales"]> opts))))) in
  create_connect_args opts query = inr ([], r)
  /\ r !! "user" = opts !! "user".
Proof.
  intros opts query r.
  assert (create_connect_args opts query = inr ([], r)) as H
    by (vm_compute; reflexivity).
  split; [exact H|].
  destruct (create_connect_args_passes_options opts query [] r H) as [_ Hk].
  apply Hk; first [discriminate | reflexivity].
Defined.

(** The host of the same URL comes back with a dot. *)
Lemma acct_host_returned :
  let opts : gmap string pyval :=
    <["user" := PStr "joe"]> (<["database" := PStr "sales/public"]>
      (<["host" := PStr "acct"]> ∅)) in
  let query : gmap string pyval := <["warehouse" := PStr "wh"]> ∅ in
  let r : gmap string pyval :=
    query ∪ <["autocommit" := PBool false]>
      (<["port" := PStr "443"]>
        (<["host" := PStr "acct.snowflakecomputing.com"]>
          (<["account" := PStr "acct"]>
            (<["schema" := PStr "public"]>
              (<["database" := PStr "sales"]> opts))))) in
  create_connect_args opts query = inr ([], r)
  /\ query !! "host" = None
  /\ exists host, r !! "host" = Some (PStr host)
                  /\ Str.contains "." host = true.
Proof.
  intros opts query r.
  assert (create_connect_args opts query = inr ([], r)) as H
    by (vm_compute; reflexivity).
  split; [exact H|]. split; [reflexivity|].
  apply (create_connect_args_host_has_dot opts query [] r H). reflexivity.
Defined.

End FurtherInstances.

Section ReflectionInstances.

Import Reflection.

(** The tables of the sample engine. *)
Lemma sample_tables_reflected :
  get_table_names None Sample.connection None
  = inr [Some (PlainStr "orders"); Some (QuotedName "tmp_load");
         Some (PlainStr "Staging")]
  /\ exists cursor,
       show_objects None Sample.connection "TABLES" None = inr cursor
       /\ Forall2 (fun row name =>
                     exists c stored,
                       row !! 1 = Some c /\ cell_name c = inr stored
                       /\ name = normalize_name stored
                       /\ (ascii_name stored = true ->
                           Name.text <$> denormalize_name name
                           = Name.text <$> stored))
                  (rows cursor)
                  [Some (PlainStr "orders"); Some (QuotedName "tmp_load");
                   Some (PlainStr "Staging")].
Proof.
  split; [vm_compute; reflexivity|].
  apply (reflected_names_denormalize None Sample.connection None "TABLES").
  left. split; [reflexivity | vm_compute; reflexivity].
Defined.

(** They have three names. *)
Lemma sample_tables_distinct :
  NoDup ((fun row => row !! 1) <$> rows Sample.show_tables)
  /\ NoDup [Some (PlainStr "orders"); Some (QuotedName "tmp_load");
            Some (PlainStr "Staging")].
Proof.
  assert (NoDup ((fun row => row !! 1) <$> rows Sample.show_tables)) as Hd.
  { cbn. repeat constructor; set_solver. }
  split; [exact Hd|].
  apply (get_table_names_distinct None Sample.connection None Sample.show_tables);
    [reflexivity | vm_compute; reflexivity | | exact Hd].
  cbn. repeat constructor; intros c stored [= <-] [= <-]; reflexivity.
Defined.

(** The temporary ones are among them. *)
Lemma sample_temporary_tables :
  _map_name_to_idx Sample.show_tables !! "name" = Some 1
  /\ sublist [Some (QuotedName "tmp_load"); Some (PlainStr "Staging")]
             [Some (PlainStr "orders"); Some (QuotedName "tmp_load");
              Some (PlainStr "Staging")].
Proof.
  split; [vm_compute; reflexivity|].
  apply (temp_table_names_sublist None Sample.connection None Sample.show_tables);
    [reflexivity | vm_compute; reflexivity | vm_compute; reflexivity
    | vm_compute; reflexivity].
Defined.

(** The key of [orders] has no more columns than the table. *)
Lemma sample_primary_key :
  current_schema None Sample.connection None = inr (Some (PlainStr "public"))
  /\ get_primary_keys None Sample.connection (Some (PlainStr "orders")) None
     = inr [Some (PlainStr "id"); Some (PlainStr "line")]
  /\ length [Some (PlainStr "id"); Some (PlainStr "line")]
     <= length (rows Sample.describe_orders).
Proof.
  split; [vm_compute; reflexivity|]. split; [vm_compute; reflexivity|].
  destruct (get_primary_keys_edges None Sample.connection
              (Some (PlainStr "orders")) None (Some (PlainStr "public"))
              Sample.describe_orders) as (_ & _ & H);
    [vm_compute; reflexivity | vm_compute; reflexivity |].
  apply H. vm_compute. reflexivity.
Defined.

(** The foreign keys of [orders]. *)
Lemma sample_foreign_keys :
  let fks :=
    [ {| fk_name := Some (PStr "FK_ITEM");
         fk_constrained_columns :=
           [Some (PlainStr "item_id"); Some (PlainStr "item_rev")];
         fk_referred_schema := Some (PlainStr "public");
         fk_referred_table := Some (PlainStr "items");
         fk_referred_columns := [Some (PlainStr "id"); Some (PlainStr "rev")] |};
      {| fk_name := Some (PStr "FK_USER");
         fk_constrained_columns := [Some (PlainStr "user_id")];
         fk_referred_schema := Some (PlainStr "public");
         fk_referred_table := Some (PlainStr "users");
         fk_referred_columns := [Some (PlainStr "id")] |} ] in
  get_foreign_keys None Sample.connection (Some (PlainStr "orders")) None
  = inr fks
  /\ Forall (fun fk =>
               length (fk_constrained_columns fk)
               = length (fk_referred_columns fk)
               /\ 0 < length (fk_constrained_columns fk)) fks.
Proof.
  intros fks.
  assert (get_foreign_keys None Sample.connection (Some (PlainStr "orders")) None
          = inr fks) as H by (vm_compute; reflexivity).
  split; [exact H|].
  apply (get_foreign_keys_consistent None Sample.connection
           (Some (PlainStr "orders")) None fks H).
Defined.

End ReflectionInstances.
